(** * migrate_to_sqlserver.py: the SQLite-to-SQL-Server dump converter

    A shallow embedding of [src/onto-editor/eidos/migrate_to_sqlserver.py].

    Text is a Python [str] whose code points lie below 256, one [ascii]
    per code point.  The regular expressions of the converter are kept
    as data and run by a small backtracking matcher with the priorities
    of Python's [re] (lazy and greedy repeats of one character class,
    one capture group); [re.sub], [str.replace], [str.split],
    [str.strip] and [str.join] are total functions on such text.  The
    content of a file is the text [read()] returns and [write()] takes.
    Files, printed messages and spawned processes live in an explicit
    world. *)

From Stdlib Require Import List Ascii String Bool Arith Lia ZArith.
Import ListNotations.

(** ** Text *)

Module Text.

Definition text := list ascii.

Definition T (s : string) : text := list_ascii_of_string s.

Definition NL : ascii := "010"%char.

Definition code (c : ascii) : nat := nat_of_ascii c.

Definition between (lo hi : nat) (c : ascii) : bool :=
  (lo <=? code c) && (code c <=? hi).

(** [str.isspace] on one code point below 256: what [str.strip()]
    removes. *)
Definition isspace (c : ascii) : bool :=
  between 9 13 c || between 28 32 c || (code c =? 133) || (code c =? 160).

(** The category [\w] of a [str] pattern: alphanumeric code points and
    the underscore. *)
Definition isword (c : ascii) : bool :=
  between 48 57 c || between 65 90 c || between 97 122 c || (code c =? 95)
  || (code c =? 170) || (code c =? 178) || (code c =? 179) || (code c =? 181)
  || (code c =? 185) || (code c =? 186) || between 188 190 c
  || between 192 214 c || between 216 246 c || between 248 255 c.

(** [s.startswith(p)] *)
Fixpoint startswith (p s : text) : bool :=
  match p, s with
  | [], _ => true
  | _ :: _, [] => false
  | a :: p', b :: s' => Ascii.eqb a b && startswith p' s'
  end.

(** [s.endswith(p)] *)
Definition endswith (p s : text) : bool := startswith (rev p) (rev s).

(** [p in s] *)
Fixpoint contains (p s : text) : bool :=
  startswith p s ||
  match s with
  | [] => false
  | _ :: s' => contains p s'
  end.

Fixpoint lstrip (s : text) : text :=
  match s with
  | [] => []
  | c :: s' => if isspace c then lstrip s' else s
  end.

Definition rstrip (s : text) : text := rev (lstrip (rev s)).

(** [s.strip()] *)
Definition strip (s : text) : text := rstrip (lstrip s).

(** [s.split(sep)] for a separator of one character. *)
Fixpoint split (sep : ascii) (s : text) : list text :=
  match s with
  | [] => [[]]
  | c :: s' =>
      if Ascii.eqb c sep then [] :: split sep s'
      else match split sep s' with
           | l :: ls => (c :: l) :: ls
           | [] => [[c]]
           end
  end.

(** [sep.join(ls)] *)
Fixpoint join (sep : text) (ls : list text) : text :=
  match ls with
  | [] => []
  | l :: ls' =>
      match ls' with
      | [] => l
      | _ :: _ => l ++ sep ++ join sep ls'
      end
  end.

(** [s.replace(old, new)] for a non-empty [old]: occurrences are taken
    from the left and do not overlap; [skip] counts the characters of a
    replaced occurrence still to be passed over. *)
Fixpoint replace_from (old new : text) (skip : nat) (s : text) : text :=
  match s with
  | [] => []
  | c :: s' =>
      match skip with
      | S k => replace_from old new k s'
      | O =>
          if startswith old s
          then new ++ replace_from old new (List.length old - 1) s'
          else c :: replace_from old new 0 s'
      end
  end.

(** With an empty [old], Python puts [new] before every character and
    at the end. *)
Fixpoint replace_empty (new s : text) : text :=
  match s with
  | [] => new
  | c :: s' => new ++ c :: replace_empty new s'
  end.

Definition replace (old new s : text) : text :=
  match old with
  | [] => replace_empty new s
  | _ :: _ => replace_from old new 0 s
  end.

End Text.

Import Text.

(** ** Regular expressions *)

Module Re.

(** The character classes the converter's patterns use. *)
Inductive cls : Type :=
  | Lit (c : ascii)
  | Any
  | AnyAll
  | Word.

Definition cls_mem (k : cls) (c : ascii) : bool :=
  match k with
  | Lit a => Ascii.eqb a c
  | Any => negb (Ascii.eqb c NL)
  | AnyAll => true
  | Word => isword c
  end.

(** One compiled step of a pattern. [Repeat greedy lo k] is [k{lo,}]
    ([k{lo,}?] when not greedy); [Mark i] records the current position
    in slot [i] (slots 0 and 1 delimit group 1). *)
Inductive op : Type :=
  | One (k : cls)
  | Repeat (greedy : bool) (lo : nat) (k : cls)
  | Mark (i : nat).

Definition pattern := list op.

Definition marks := nat -> option nat.

Definition no_marks : marks := fun _ => None.

Definition set_mark (m : marks) (i pos : nat) : marks :=
  fun j => if j =? i then Some pos else m j.

(** [run p s pos m]: match [p] at the head of [s], which lies [pos]
    characters after the start of the attempt; the first success in
    backtracking order gives the length of the match and the marks. *)
Fixpoint run (p : pattern) (s : text) (pos : nat) (m : marks)
  : option (nat * marks) :=
  match p with
  | [] => Some (pos, m)
  | One k :: p' =>
      match s with
      | c :: s' => if cls_mem k c then run p' s' (S pos) m else None
      | [] => None
      end
  | Mark i :: p' => run p' s pos (set_mark m i pos)
  | Repeat true lo k :: p' =>
      (fix more (s : text) (pos need : nat) {struct s} : option (nat * marks) :=
         let stop := if need =? 0 then run p' s pos m else None in
         match s with
         | c :: s' =>
             if cls_mem k c then
               match more s' (S pos) (pred need) with
               | Some r => Some r
               | None => stop
               end
             else stop
         | [] => stop
         end) s pos lo
  | Repeat false lo k :: p' =>
      (fix more (s : text) (pos need : nat) {struct s} : option (nat * marks) :=
         match (if need =? 0 then run p' s pos m else None) with
         | Some r => Some r
         | None =>
             match s with
             | c :: s' =>
                 if cls_mem k c then more s' (S pos) (pred need) else None
             | [] => None
             end
         end) s pos lo
  end.

Definition match_at (p : pattern) (s : text) : option (nat * marks) :=
  run p s 0 no_marks.

(** A replacement template: literal text and group references. *)
Inductive piece : Type :=
  | Txt (t : text)
  | Grp (i : nat).

Definition template := list piece.

(** The text of group [i] of a match starting at the head of [s]. *)
Definition group (s : text) (m : marks) (i : nat) : text :=
  match m (2 * (i - 1)), m (2 * (i - 1) + 1) with
  | Some a, Some b => firstn (b - a) (skipn a s)
  | _, _ => []
  end.

Fixpoint expand (r : template) (s : text) (m : marks) : text :=
  match r with
  | [] => []
  | Txt t :: r' => t ++ expand r' s m
  | Grp i :: r' => group s m i ++ expand r' s m
  end.

(** [re.sub]: scan from the left; at each position not inside the
    previous match try the pattern, write the replacement for a match
    and go on behind it, copy the character otherwise. *)
Fixpoint sub_from (p : pattern) (r : template) (skip : nat) (s : text) : text :=
  match s with
  | [] =>
      match match_at p [] with
      | Some (_, m) => expand r [] m
      | None => []
      end
  | c :: s' =>
      match skip with
      | S k => sub_from p r k s'
      | O =>
          match match_at p s with
          | Some (O, m) => expand r s m ++ c :: sub_from p r 0 s'
          | Some (S n, m) => expand r s m ++ sub_from p r n s'
          | None => c :: sub_from p r 0 s'
          end
      end
  end.

Definition sub (p : pattern) (r : template) (s : text) : text :=
  sub_from p r 0 s.

Definition lits (t : text) : pattern := map (fun c => One (Lit c)) t.

End Re.

Import Re.

(** ** The world: files, standard output, spawned processes *)

Module World.

Definition path := string.

(** What [subprocess.run] hands back once the child has exited. *)
Record CompletedProcess : Type := {
  args : list string;
  returncode : Z;
  stdout : text;
  stderr : text
}.

(** The lines the script prints, by their format string. *)
Inductive message : Type :=
  | MsgConverted (output_file : path)
  | MsgImporting
  | MsgImported
  | MsgImportFailed (err : text).

(** The exceptions of the model.  [OSError cmd] stands for every way in
    which [subprocess.run] fails to start the program of [cmd]; Python
    raises a subclass of [OSError] there, such as [FileNotFoundError]
    or [PermissionError]. *)
Inductive exn : Type :=
  | FileNotFoundError (p : path)
  | OSError (cmd : list string)
  | CalledProcessError (rc : Z) (cmd : list string).

Inductive result (A : Type) : Type :=
  | Ok (a : A)
  | Raise (e : exn).

Arguments Ok {A} a.
Arguments Raise {A} e.

(** [files] gives the content stored under a path name; two names are
    two files, aliases of one file are outside the model. *)
Record world : Type := {
  files : path -> option text;
  printed : list message;
  spawned : list (list string)
}.

(** Computations of the script: they read and change the world and
    either return or raise. *)
Definition M (A : Type) : Type := world -> result A * world.

Definition ret {A} (a : A) : M A := fun w => (Ok a, w).

Definition bind {A B} (c : M A) (k : A -> M B) : M B :=
  fun w =>
    match c w with
    | (Ok a, w') => k a w'
    | (Raise e, w') => (Raise e, w')
    end.

Notation "x <- c ;; k" := (bind c (fun x => k))
  (at level 61, c at next level, right associativity).
Notation "c ;;; k" := (bind c (fun _ => k))
  (at level 61, right associativity).

(** [open(p, 'r').read()].  A file that exists is taken to be readable
    and its content to be the text [read()] returns; the one failure of
    the model is the missing file. *)
Definition read_file (p : path) : M text :=
  fun w =>
    match files w p with
    | Some content => (Ok content, w)
    | None => (Raise (FileNotFoundError p), w)
    end.

(** [open(p, 'w').write(content)].  The path is taken to be writable:
    an output that cannot be opened (missing directory, permissions) is
    outside the model. *)
Definition write_file (p : path) (content : text) : M unit :=
  fun w =>
    (Ok tt,
     {| files := fun q => if String.eqb q p then Some content else files w q;
        printed := printed w;
        spawned := spawned w |}).

Definition print (m : message) : M unit :=
  fun w =>
    (Ok tt,
     {| files := files w; printed := printed w ++ [m]; spawned := spawned w |}).

Section Subprocess.

(** The operating system: what running a command gives, knowing the
    commands run before it; [None] when the program cannot be started. *)
Variable os : list (list string) -> list string -> option CompletedProcess.

(** [subprocess.run(cmd, check=check, ...)].  The child is seen through
    its exit status and captured output; what it does to files is
    outside the model. *)
Definition subprocess_run (cmd : list string) (check : bool)
  : M CompletedProcess :=
  fun w =>
    let w' := {| files := files w; printed := printed w;
                 spawned := spawned w ++ [cmd] |} in
    match os (spawned w) cmd with
    | None => (Raise (OSError cmd), w')
    | Some cp =>
        if check && negb (Z.eqb (returncode cp) 0)
        then (Raise (CalledProcessError (returncode cp) cmd), w')
        else (Ok cp, w')
    end.

End Subprocess.

End World.

Import World.

(** ** The converter *)

Module Converter.

(** [.*?;] with [.] of class [k]. *)
Definition until_semicolon (k : cls) : pattern :=
  [Repeat false 0 k; One (Lit ";"%char)].

(** [r'PRAGMA.*?;'] *)
Definition PRAGMA : pattern := lits (T "PRAGMA") ++ until_semicolon Any.

(** [r'BEGIN TRANSACTION;'] *)
Definition BEGIN_TRANSACTION : pattern := lits (T "BEGIN TRANSACTION;").

(** [r'COMMIT;'] *)
Definition COMMIT : pattern := lits (T "COMMIT;").

(** [r'CREATE TABLE IF NOT EXISTS'] *)
Definition CREATE_TABLE_IF_NOT_EXISTS : pattern :=
  lits (T "CREATE TABLE IF NOT EXISTS").

(** [r'CREATE TABLE.*?;'] under [re.DOTALL] *)
Definition CREATE_TABLE : pattern :=
  lits (T "CREATE TABLE") ++ until_semicolon AnyAll.

(** [r'CREATE INDEX.*?;'] *)
Definition CREATE_INDEX : pattern :=
  lits (T "CREATE INDEX") ++ until_semicolon Any.

(** [r'CREATE UNIQUE INDEX.*?;'] *)
Definition CREATE_UNIQUE_INDEX : pattern :=
  lits (T "CREATE UNIQUE INDEX") ++ until_semicolon Any.

(** [r'INSERT INTO (\w+)'] *)
Definition INSERT_INTO : pattern :=
  lits (T "INSERT INTO ") ++ [Mark 0; Repeat true 1 Word; Mark 1].

(** The replacement of line 18; its [\n] is a newline and [{table}] is
    literal text. *)
Definition existence_check : text :=
  T "IF NOT EXISTS (SELECT * FROM sys.objects WHERE object_id = OBJECT_ID(N'[dbo].[{table}]') AND type in (N'U'))"
  ++ [NL] ++ T "CREATE TABLE".

(** The substitutions in the order of the script, numbered as in the
    specification: lines 15, 16, 17, 18, 21, 22, 23, 28, 31 and 32,
    35. *)
Definition rule1 : text -> text := sub PRAGMA [].
Definition rule2 : text -> text := sub BEGIN_TRANSACTION [].
Definition rule3 : text -> text := sub COMMIT [].
Definition rule4 : text -> text :=
  sub CREATE_TABLE_IF_NOT_EXISTS [Txt existence_check].
Definition rule5 : text -> text := sub CREATE_TABLE [].
Definition rule6 : text -> text := sub CREATE_INDEX [].
Definition rule7 : text -> text := sub CREATE_UNIQUE_INDEX [].
Definition rule8 : text -> text :=
  sub INSERT_INTO [Txt (T "INSERT INTO ["); Grp 1; Txt (T "]")].
Definition rule9 (content : text) : text :=
  replace (T "'1'") (T "1") (replace (T "'0'") (T "0") content).
Definition rule10 : text -> text := replace (T "''") (T "NULL").

(** The deletions, lines 15 to 23 of the script. *)
Definition rules_1_7 (content : text) : text :=
  rule7 (rule6 (rule5 (rule4 (rule3 (rule2 (rule1 content)))))).

(** All substitutions, lines 15 to 35. *)
Definition rewrite (content : text) : text :=
  rule10 (rule9 (rule8 (rules_1_7 content))).

(** The loop of lines 40 to 45, one source line at a time. *)
Definition emit (line : text) : list text :=
  let line := strip line in
  match line with
  | [] => []
  | _ :: _ =>
      if negb (startswith (T "--") line)
      then line :: (if endswith (T ";") line then [T "GO"] else [])
      else []
  end.

Fixpoint add_go (lines : list text) : list text :=
  match lines with
  | [] => []
  | line :: rest => emit line ++ add_go rest
  end.

Definition output_lines (content : text) : list text :=
  add_go (split NL (rewrite content)).

(** What is written to the output file for a given input content. *)
Definition convert_text (content : text) : text :=
  join [NL] (output_lines content).

Definition convert_sqlite_to_sqlserver (input_file output_file : path)
  : M unit :=
  content <- read_file input_file ;;
  write_file output_file (convert_text content) ;;;
  print (MsgConverted output_file).

End Converter.

Import Converter.

(** ** The import runner *)

Module Importer.

Section Runner.

Variable os : list (list string) -> list string -> option CompletedProcess.

Definition container_path (sql_file : path) : string :=
  String.append "/tmp/" sql_file.

Definition copy_cmd (sql_file : path) : list string :=
  ["docker"; "cp"; sql_file;
   String.append "eidos-sqlserver:" (container_path sql_file)]%string.

Definition client_cmd (sql_file : path) : list string :=
  ["docker"; "exec"; "-i"; "eidos-sqlserver";
   "/opt/mssql-tools18/bin/sqlcmd";
   "-S"; "localhost";
   "-U"; "sa";
   "-P"; "YourStrong!Passw0rd";
   "-d"; "EidosDb";
   "-C";
   "-i"; container_path sql_file]%string.

Definition import_to_sqlserver (sql_file : path) : M bool :=
  print MsgImporting ;;;
  let cmd := client_cmd sql_file in
  subprocess_run os (copy_cmd sql_file) true ;;;
  result <- subprocess_run os cmd false ;;
  if Z.eqb (returncode result) 0
  then print MsgImported ;;; ret true
  else print (MsgImportFailed (stderr result)) ;;; ret false.

End Runner.

End Importer.

Import Importer.

(** ** The driver *)

Module Driver.

(** A line on standard output during a run of the script: one printed
    by a function of the script, or one of the driver's own. *)
Inductive line : Type :=
  | Printed (m : message)
  | MsgStarting
  | MsgManualImportRequired
  | MsgConvertedTo
  | MsgToImportManually
  | MsgAzureDataStudio
  | MsgManagementStudio
  | MsgRunStatements.

Record session : Type := {
  disk : path -> option text;
  console : list line;
  processes : list (list string)
}.

Definition D (A : Type) : Type := session -> result A * session.

Definition then_ {A B} (c : D A) (k : D B) : D B :=
  fun s =>
    match c s with
    | (Ok _, s') => k s'
    | (Raise e, s') => (Raise e, s')
    end.

Definition say (l : line) : D unit :=
  fun s =>
    (Ok tt,
     {| disk := disk s; console := console s ++ [l];
        processes := processes s |}).

(** A call of a function of the script: it runs on the files and the
    process log of the session, and what it prints goes to the
    console. *)
Definition call {A} (c : M A) : D A :=
  fun s =>
    match c {| files := disk s; printed := []; spawned := processes s |} with
    | (r, w) =>
        (r,
         {| disk := files w;
            console := console s ++ map Printed (printed w);
            processes := spawned w |})
    end.

(** The body of [if __name__ == '__main__'], lines 82 to 91. *)
Definition main : D unit :=
  then_ (say MsgStarting)
  (then_ (call (convert_sqlite_to_sqlserver "sqlitedata.sql"%string
                  "sqlserver_import.sql"%string))
  (then_ (say MsgManualImportRequired)
  (then_ (say MsgConvertedTo)
  (then_ (say MsgToImportManually)
  (then_ (say MsgAzureDataStudio)
  (then_ (say MsgManagementStudio)
         (say MsgRunStatements))))))).

End Driver.

Import Driver.

(** ** Notions the properties are stated with *)

(** A document given line by line. *)
Definition doc (ls : list string) : text := join [NL] (map T ls).

(** The lines of a text file: none for an empty file, else the pieces
    between newlines. *)
Definition text_lines (content : text) : list text :=
  match content with
  | [] => []
  | _ :: _ => split NL content
  end.

(** [a] occurs in [s] as a run of consecutive characters. *)
Definition infix (a s : text) : Prop := exists x y, s = x ++ a ++ y.

(** No occurrence of [old] in [a ++ b] begins in [a] and ends in [b]. *)
Definition no_straddle (old a b : text) : Prop :=
  forall x y, a = x ++ y -> y <> [] ->
    startswith old (y ++ b) = true -> startswith old y = true.

(** A character that ends a token: neither a word character nor a
    quote. *)
Definition delimiter (c : ascii) : bool :=
  negb (isword c) && negb (Ascii.eqb c "'"%char).

(** A literal between [pre] and [post] stands alone when the characters
    next to it, if any, are delimiters. *)
Definition standalone (pre post : text) : bool :=
  match rev pre with
  | c :: _ => delimiter c
  | [] => true
  end &&
  match post with
  | c :: _ => delimiter c
  | [] => true
  end.

(** Rule 5 as the specification words it: from the keyword to the last
    terminator of the document. *)
Definition CREATE_TABLE_TO_LAST : pattern :=
  lits (T "CREATE TABLE") ++ [Repeat true 0 AnyAll; One (Lit ";"%char)].

(** The converter with rule 4 taken out. *)
Definition rewrite_without_rule4 (content : text) : text :=
  rule10 (rule9 (rule8 (rule7 (rule6 (rule5 (rule3 (rule2 (rule1 content)))))))).

Definition convert_text_without_rule4 (content : text) : text :=
  join [NL] (add_go (split NL (rewrite_without_rule4 content))).

(** The keywords of the deletion rules. *)
Definition keywords : list text :=
  [T "PRAGMA"; T "BEGIN TRANSACTION;"; T "COMMIT;";
   T "CREATE TABLE"; T "CREATE INDEX"; T "CREATE UNIQUE INDEX"].

(** A line holds a pragma, transaction, create-table or create-index
    pattern. *)
Definition has_pattern (line : text) : bool :=
  existsb (fun k => contains k line) keywords.

(** The document of the end-to-end scenario. *)
Definition scenario : text :=
  doc ["PRAGMA foo;"; "BEGIN TRANSACTION;"; "CREATE TABLE T (a int);";
       "INSERT INTO T VALUES('0');"; "COMMIT;"]%string.

(** A world whose only file is the dump of the end-to-end scenario. *)
Definition scenario_world : world :=
  {| files := fun p =>
       if String.eqb p "sqlitedata.sql"%string then Some scenario else None;
     printed := [];
     spawned := [] |}.

(** A CREATE TABLE statement with a terminator inside a string literal,
    followed by another statement. *)
Definition quoted_terminator : text :=
  doc ["CREATE TABLE T (a text DEFAULT ';');";
       "INSERT INTO T VALUES(2);"]%string.

(** A dump whose table is declared with IF NOT EXISTS. *)
Definition guarded_table : text :=
  doc ["CREATE TABLE IF NOT EXISTS T (a int);";
       "INSERT INTO T VALUES(1);"]%string.

(** A dump that holds a schema and no rows. *)
Definition schema_only : text :=
  doc ["PRAGMA foreign_keys=OFF;"; "BEGIN TRANSACTION;";
       "CREATE TABLE T (a int);"; "COMMIT;"]%string.

Definition schema_only_world : world :=
  {| files := fun p =>
       if String.eqb p "sqlitedata.sql" then Some schema_only else None;
     printed := [];
     spawned := [] |}.

(** An operating system in which the copy succeeds and the client
    exits with status 1. *)
Definition os_client_fails (history : list (list string)) (cmd : list string)
  : option CompletedProcess :=
  match history with
  | [] => Some {| args := cmd; returncode := 0; stdout := []; stderr := [] |}
  | _ :: _ =>
      Some {| args := cmd; returncode := 1; stdout := [];
              stderr := T "Login failed" |}
  end.

(** The keyword of rule 8, with its blank. *)
Definition INSERT_KEYWORD : text := T "INSERT INTO ".

(** [t] begins with a word character. *)
Definition word_next (t : text) : bool :=
  match t with
  | c :: _ => isword c
  | [] => false
  end.

(** [w] is a table name as rule 8 reads it: word characters only, at
    least one. *)
Definition identifier (w : text) : bool :=
  match w with
  | [] => false
  | _ :: _ => forallb isword w
  end.

(** The suffixes of a text, longest first. *)
Fixpoint tails (l : text) : list text :=
  l :: match l with
       | [] => []
       | _ :: l' => tails l'
       end.

(** What follows INSERT INTO in a row whose table name is in double
    quotes. *)
Definition quoted_name_row : text :=
  "034"%char :: T "T" ++ "034"%char :: T " VALUES(1);".

(** The strings that set off a substitution: the keywords of rules 1
    to 8 and the quoted literals of rules 9 and 10. *)
Definition triggers : list text :=
  keywords ++ [INSERT_KEYWORD; T "'0'"; T "'1'"; T "''"].

(** A document without any trigger: a statement, a comment and an
    indented statement. *)
Definition plain_document : text :=
  doc ["UPDATE T SET a = 2;"; "-- rows follow"; "   DELETE FROM T"]%string.

(** A CREATE TABLE statement whose default value is the quoted literal
    ['0'], cut around the literal. *)
Definition default_zero_pre : text := T "CREATE TABLE T (a int DEFAULT ".
Definition default_zero_post : text := T ");".

(** A row whose text value holds escaped quotes around a zero. *)
Definition escaped_quotes : text := T "INSERT INTO T VALUES('a''0''b');".


(** A session with the scenario dump on disk. *)
Definition scenario_session : session :=
  {| disk := fun p =>
       if String.eqb p "sqlitedata.sql" then Some scenario else None;
     console := [];
     processes := [] |}.

(** A world without files. *)
Definition empty_world : world :=
  {| files := fun _ => None; printed := []; spawned := [] |}.


(** ** Facts about text *)

Module TextFacts.

Lemma startswith_app (p s : text) : startswith p (p ++ s) = true.
Proof.
  induction p as [|a p IH]; simpl; [reflexivity|].
  now rewrite Ascii.eqb_refl.
Qed.

Lemma startswith_split (p s : text) :
  startswith p s = true -> exists r, s = p ++ r.
Proof.
  revert s; induction p as [|a p IH]; intros s H.
  - now exists s.
  - destruct s as [|b s]; simpl in H; [discriminate|].
    apply andb_true_iff in H as [Hab Hps].
    apply Ascii.eqb_eq in Hab; subst b.
    destruct (IH _ Hps) as [r ->]. now exists r.
Qed.

Lemma startswith_mono (p s z : text) :
  startswith p s = true -> startswith p (s ++ z) = true.
Proof.
  intros H. destruct (startswith_split _ _ H) as [r ->].
  rewrite <- app_assoc. apply startswith_app.
Qed.

Lemma startswith_long (p x z : text) :
  List.length p <= List.length x -> startswith p (x ++ z) = startswith p x.
Proof.
  revert x; induction p as [|a p IH]; intros x Hlen; [reflexivity|].
  destruct x as [|b x]; simpl in *; [lia|].
  rewrite IH by lia. reflexivity.
Qed.

Lemma startswith_prefix (p q s : text) :
  startswith (p ++ q) s = true -> startswith p s = true.
Proof.
  revert s; induction p as [|a p IH]; intros s H; [reflexivity|].
  destruct s as [|b s]; simpl in *; [discriminate|].
  apply andb_true_iff in H as [-> H]. simpl. eauto.
Qed.

(** A match that reaches a character foreign to the pattern ends before
    it. *)
Lemma startswith_foreign (p y b : text) (d : ascii) :
  ~ In d p ->
  startswith p (y ++ d :: b) = true -> startswith p y = true.
Proof.
  revert y; induction p as [|a p IH]; intros y Hd H; [reflexivity|].
  destruct y as [|c y]; simpl in *.
  - apply andb_true_iff in H as [Had _]. apply Ascii.eqb_eq in Had.
    exfalso; apply Hd; now left.
  - apply andb_true_iff in H as [-> H]. simpl.
    apply IH; [|exact H]. intros Hin; apply Hd; now right.
Qed.

Lemma contains_head (p s : text) :
  startswith p s = true -> contains p s = true.
Proof.
  intros H. destruct s; simpl; simpl in H; rewrite H; reflexivity.
Qed.

Lemma contains_infix (p s : text) : contains p s = true <-> infix p s.
Proof.
  split.
  - induction s as [|c s IH]; simpl; intros H.
    + rewrite orb_false_r in H.
      destruct (startswith_split _ _ H) as [r Hr]. now exists [], r.
    + apply orb_true_iff in H as [H|H].
      * destruct (startswith_split _ _ H) as [r Hr]. now exists [], r.
      * destruct (IH H) as (x & y & ->). now exists (c :: x), y.
  - intros (x & y & ->). induction x as [|c x IH].
    + simpl. apply contains_head, startswith_app.
    + simpl. rewrite IH. apply orb_true_r.
Qed.

Lemma contains_tail (p s : text) (c : ascii) :
  contains p (c :: s) = false -> contains p s = false.
Proof.
  simpl. intros H. now apply orb_false_iff in H as [_ H].
Qed.

Lemma contains_no_head (p s : text) :
  contains p s = false -> startswith p s = false.
Proof.
  intros H. destruct (startswith p s) eqn:E; [|reflexivity].
  now rewrite (contains_head _ _ E) in H.
Qed.

Lemma infix_trans (a b c : text) : infix a b -> infix b c -> infix a c.
Proof.
  intros (x & y & ->) (x' & y' & ->).
  exists (x' ++ x), (y ++ y'). now rewrite !app_assoc.
Qed.

Lemma contains_within (p a s : text) :
  infix a s -> contains p s = false -> contains p a = false.
Proof.
  intros Has Hs. destruct (contains p a) eqn:E; [|reflexivity].
  apply contains_infix in E.
  pose proof (infix_trans _ _ _ E Has) as H. apply contains_infix in H.
  congruence.
Qed.

(** An occurrence in [a ++ d :: b], where [d] is foreign to the
    pattern, lies in [a] or in [b]. *)
Lemma contains_sep (p a b : text) (d : ascii) :
  ~ In d p ->
  contains p a = false -> contains p b = false ->
  contains p (a ++ d :: b) = false.
Proof.
  intros Hd Ha Hb. induction a as [|c a IH]; simpl.
  - apply orb_false_iff; split; [|exact Hb].
    destruct (startswith p (d :: b)) eqn:E; [|reflexivity].
    apply (startswith_foreign p [] b d Hd) in E.
    now rewrite (contains_head _ _ E) in Ha.
  - apply orb_false_iff; split; [|apply IH; eapply contains_tail; eauto].
    destruct (startswith p (c :: a ++ d :: b)) eqn:E; [|reflexivity].
    apply (startswith_foreign p (c :: a) b d Hd) in E.
    now rewrite (contains_head _ _ E) in Ha.
Qed.

(** *** strip *)

Lemma lstrip_suffix (s : text) : exists x, s = x ++ lstrip s.
Proof.
  induction s as [|c s [x IH]]; simpl; [now exists []|].
  destruct (isspace c); [|now exists []].
  exists (c :: x). simpl. now f_equal.
Qed.

Lemma lstrip_head (s : text) (c : ascii) (r : text) :
  lstrip s = c :: r -> isspace c = false.
Proof.
  induction s as [|a s IH]; simpl; [discriminate|].
  destruct (isspace a) eqn:E; [exact IH|].
  intros [= <- _]. exact E.
Qed.

Lemma lstrip_snoc (s : text) (c : ascii) :
  isspace c = false -> lstrip (s ++ [c]) = lstrip s ++ [c].
Proof.
  intros Hc. induction s as [|a s IH]; simpl; [now rewrite Hc|].
  destruct (isspace a); [exact IH|reflexivity].
Qed.

Lemma rstrip_cons (s : text) (c : ascii) :
  isspace c = false -> rstrip (c :: s) = c :: rstrip s.
Proof.
  intros Hc. unfold rstrip. simpl.
  rewrite lstrip_snoc by exact Hc. rewrite rev_app_distr. reflexivity.
Qed.

Lemma rstrip_prefix (s : text) : exists y, s = rstrip s ++ y.
Proof.
  unfold rstrip. destruct (lstrip_suffix (rev s)) as [x Hx].
  exists (rev x). rewrite <- rev_app_distr, <- Hx. now rewrite rev_involutive.
Qed.

Lemma rstrip_last (s r : text) (c : ascii) :
  rstrip s = r ++ [c] -> isspace c = false.
Proof.
  unfold rstrip. intros H.
  apply (f_equal (@rev ascii)) in H.
  rewrite rev_involutive, rev_app_distr in H. simpl in H.
  eapply lstrip_head; eauto.
Qed.

Lemma strip_infix (s : text) : infix (strip s) s.
Proof.
  unfold strip. destruct (lstrip_suffix s) as [x Hx].
  destruct (rstrip_prefix (lstrip s)) as [y Hy].
  exists x, y. now rewrite <- Hy.
Qed.

Lemma strip_head (s r : text) (c : ascii) :
  strip s = c :: r -> isspace c = false.
Proof.
  unfold strip. destruct (lstrip s) as [|a l] eqn:E.
  - discriminate.
  - pose proof (lstrip_head _ _ _ E) as Ha.
    rewrite rstrip_cons by exact Ha. now intros [= <- _].
Qed.

Lemma strip_last (s r : text) (c : ascii) :
  strip s = r ++ [c] -> isspace c = false.
Proof. unfold strip. apply rstrip_last. Qed.

Lemma infix_In (a s : text) (c : ascii) : infix a s -> In c a -> In c s.
Proof.
  intros (x & y & ->) H. apply in_or_app; right. apply in_or_app; now left.
Qed.

(** *** split and join *)

Lemma split_not_nil (sep : ascii) (s : text) : split sep s <> [].
Proof.
  destruct s as [|c s]; simpl; [discriminate|].
  destruct (Ascii.eqb c sep); [discriminate|].
  destruct (split sep s); discriminate.
Qed.

Lemma split_whole (sep : ascii) (l : text) :
  ~ In sep l -> split sep l = [l].
Proof.
  induction l as [|c l IH]; intros H; simpl; [reflexivity|].
  destruct (Ascii.eqb_spec c sep) as [->|_].
  - exfalso; apply H; now left.
  - rewrite IH; [reflexivity|]. intros Hin; apply H; now right.
Qed.

Lemma split_app_sep (sep : ascii) (l r : text) :
  ~ In sep l -> split sep (l ++ sep :: r) = l :: split sep r.
Proof.
  induction l as [|c l IH]; intros H; simpl.
  - now rewrite Ascii.eqb_refl.
  - destruct (Ascii.eqb_spec c sep) as [->|_].
    + exfalso; apply H; now left.
    + rewrite IH; [reflexivity|]. intros Hin; apply H; now right.
Qed.

Lemma split_join (sep : ascii) (ls : list text) :
  ls <> [] -> Forall (fun l => ~ In sep l) ls ->
  split sep (join [sep] ls) = ls.
Proof.
  induction ls as [|l ls IH]; intros Hne Hall; [congruence|].
  inversion Hall as [|? ? Hl Hls]; subst.
  destruct ls as [|l2 ls].
  - simpl. now apply split_whole.
  - change (join [sep] (l :: l2 :: ls))
      with (l ++ sep :: join [sep] (l2 :: ls)).
    rewrite split_app_sep by exact Hl.
    rewrite IH; [reflexivity|discriminate|exact Hls].
Qed.

Lemma split_no_sep (sep : ascii) (s : text) :
  Forall (fun l => ~ In sep l) (split sep s).
Proof.
  induction s as [|c s IH]; simpl.
  - constructor; [intros []|constructor].
  - destruct (Ascii.eqb_spec c sep) as [->|Hc].
    + constructor; [intros []|exact IH].
    + destruct (split sep s) as [|l0 ls]; [repeat constructor|].
      * intros [->|[]]. now apply Hc.
      * inversion IH; subst. constructor; [|assumption].
        intros [->|Hin]; [now apply Hc|contradiction].
Qed.

Lemma join_cons2 (sep l l2 : text) (ls : list text) :
  join sep (l :: l2 :: ls) = l ++ sep ++ join sep (l2 :: ls).
Proof. reflexivity. Qed.

Lemma join_split (sep : ascii) (s : text) : join [sep] (split sep s) = s.
Proof.
  induction s as [|c s IH]; simpl; [reflexivity|].
  destruct (Ascii.eqb_spec c sep) as [->|Hc].
  - destruct (split sep s) as [|l0 ls] eqn:E.
    + exfalso. now apply (split_not_nil sep s).
    + rewrite join_cons2, IH. reflexivity.
  - destruct (split sep s) as [|l0 ls] eqn:E.
    + exfalso. now apply (split_not_nil sep s).
    + rewrite <- IH. destruct ls; reflexivity.
Qed.

Lemma join_infix (sep l : text) (ls : list text) :
  In l ls -> infix l (join sep ls).
Proof.
  induction ls as [|l0 ls IH]; intros H; [destruct H|].
  destruct ls as [|l1 ls].
  - destruct H as [->|[]]. exists [], []. simpl. now rewrite app_nil_r.
  - rewrite join_cons2. destruct H as [->|H].
    + now exists [], (sep ++ join sep (l1 :: ls)).
    + destruct (IH H) as (x & y & ->).
      exists (l0 ++ sep ++ x), y. now rewrite <- !app_assoc.
Qed.

Lemma split_parts (sep : ascii) (s l : text) :
  In l (split sep s) -> infix l s /\ ~ In sep l.
Proof.
  intros H. split.
  - rewrite <- (join_split sep s). now apply join_infix.
  - pose proof (split_no_sep sep s) as Hall.
    rewrite Forall_forall in Hall. now apply Hall.
Qed.

(** No pattern free of the separator occurs in the joined lines unless
    it occurs in one of them. *)
Lemma contains_join (p : text) (sep : ascii) (ls : list text) :
  ~ In sep p ->
  Forall (fun l => contains p l = false) ls ->
  contains p [] = false ->
  contains p (join [sep] ls) = false.
Proof.
  intros Hsep Hall Hnil. induction Hall as [|l ls Hl Hls IH]; [exact Hnil|].
  destruct ls as [|l1 ls]; [exact Hl|].
  rewrite join_cons2. simpl. apply contains_sep; assumption.
Qed.

End TextFacts.

(** ** Facts about [str.replace] *)

Module ReplaceFacts.

Import TextFacts.

Lemma startswith_length (p s : text) :
  startswith p s = true -> List.length p <= List.length s.
Proof.
  intros H. destruct (startswith_split _ _ H) as [r ->].
  rewrite length_app. lia.
Qed.

Lemma replace_from_skip (old new : text) (k : nat) (s : text) :
  replace_from old new k s = replace_from old new 0 (skipn k s).
Proof.
  revert k; induction s as [|c s IH]; intros [|k]; try reflexivity.
  simpl. apply IH.
Qed.

Lemma no_straddle_tail (old : text) (c : ascii) (a b : text) :
  no_straddle old (c :: a) b -> no_straddle old a b.
Proof.
  intros H x y -> Hy. apply (H (c :: x) y); [reflexivity|exact Hy].
Qed.

Lemma replace_from_app (old new : text) (k : nat) (a b : text) :
  k <= List.length a -> no_straddle old a b ->
  replace_from old new k (a ++ b)
  = replace_from old new k a ++ replace_from old new 0 b.
Proof.
  revert k; induction a as [|c a IH]; intros k Hk Hns.
  - simpl in Hk. assert (k = 0) by lia. subst k. reflexivity.
  - pose proof (no_straddle_tail _ _ _ _ Hns) as Hns'.
    destruct k as [|k]; simpl.
    + fold (startswith old (c :: a ++ b)). fold (startswith old (c :: a)).
      destruct (startswith old (c :: a)) eqn:E.
      * change (c :: a ++ b) with ((c :: a) ++ b).
        rewrite (startswith_mono _ _ b E).
        apply startswith_length in E. simpl in E.
        rewrite IH by (assumption || lia). now rewrite app_assoc.
      * destruct (startswith old (c :: a ++ b)) eqn:E'.
        -- apply (Hns [] (c :: a)) in E';
             [congruence|reflexivity|discriminate].
        -- rewrite IH by (assumption || lia). reflexivity.
    + simpl in Hk. apply IH; [lia|exact Hns'].
Qed.

Lemma no_straddle_foreign (old a b : text) (d : ascii) :
  ~ In d old -> no_straddle old a (d :: b).
Proof.
  intros Hd x y _ _ H. eapply startswith_foreign; eauto.
Qed.

Lemma no_straddle_last (old a b : text) (d : ascii) :
  ~ In d old -> no_straddle old (a ++ [d]) b.
Proof.
  intros Hd x y Hxy Hy H.
  destruct (exists_last Hy) as (y0 & e & ->).
  rewrite app_assoc in Hxy. apply app_inj_tail in Hxy as [_ <-].
  rewrite <- app_assoc in H. simpl in H.
  apply startswith_mono. eapply startswith_foreign; eauto.
Qed.

Lemma replace_app (old new a b : text) :
  old <> [] -> no_straddle old a b ->
  replace old new (a ++ b) = replace old new a ++ replace old new b.
Proof.
  intros Hold Hns. destruct old as [|o old]; [congruence|].
  unfold replace. apply replace_from_app; [lia|exact Hns].
Qed.

Lemma replace_hit (old new s : text) :
  old <> [] -> replace old new (old ++ s) = new ++ replace old new s.
Proof.
  intros Hold. destruct old as [|o old]; [congruence|].
  unfold replace.
  change ((o :: old) ++ s) with (o :: old ++ s).
  cbn [replace_from].
  change (o :: old ++ s) with ((o :: old) ++ s).
  rewrite startswith_app. f_equal.
  rewrite replace_from_skip. simpl List.length.
  replace (S (List.length old) - 1) with (List.length old) by lia.
  now rewrite skipn_app, skipn_all, Nat.sub_diag.
Qed.

Lemma replace_miss (old new s : text) :
  old <> [] -> contains old s = false -> replace old new s = s.
Proof.
  intros Hold. destruct old as [|o old]; [congruence|].
  unfold replace. induction s as [|c s IH]; intros H; [reflexivity|].
  cbn [replace_from]. rewrite (contains_no_head _ _ H).
  f_equal. apply IH. eapply contains_tail; eauto.
Qed.

(** A character foreign to [old] passes through and separates the
    text before it from the text behind it. *)
Lemma replace_foreign (old new a b : text) (d : ascii) :
  old <> [] -> ~ In d old ->
  replace old new (a ++ d :: b)
  = replace old new a ++ d :: replace old new b.
Proof.
  intros Hold Hd.
  rewrite replace_app by (assumption || now apply no_straddle_foreign).
  f_equal. change (d :: b) with ([d] ++ b).
  rewrite replace_app; [|assumption|].
  - f_equal. destruct old as [|o old]; [congruence|].
    unfold replace. cbn [replace_from].
    destruct (startswith (o :: old) [d]) eqn:E; [|reflexivity].
    exfalso. simpl in E. apply andb_true_iff in E as [E _].
    apply Ascii.eqb_eq in E. apply Hd. now left.
  - apply (no_straddle_last old [] b d Hd).
Qed.

End ReplaceFacts.

(** ** Facts about the matcher and [re.sub] *)

Module ReFacts.

Import TextFacts.

Lemma run_lits (L : text) (k : pattern) (s : text) (pos : nat) (m : marks) :
  run (lits L ++ k) s pos m
  = if startswith L s
    then run k (skipn (List.length L) s) (pos + List.length L) m
    else None.
Proof.
  revert s pos; induction L as [|a L IH]; intros s pos.
  - simpl. now rewrite Nat.add_0_r.
  - destruct s as [|c s]; [reflexivity|].
    simpl. destruct (Ascii.eqb a c); [|reflexivity].
    rewrite IH. simpl. now rewrite Nat.add_succ_r.
Qed.

Lemma run_lazy_step (lo : nat) (k : cls) (p : pattern)
      (s : text) (pos : nat) (m : marks) :
  run (Repeat false lo k :: p) s pos m
  = match (if lo =? 0 then run p s pos m else None) with
    | Some r => Some r
    | None =>
        match s with
        | c :: s' =>
            if cls_mem k c
            then run (Repeat false (pred lo) k :: p) s' (S pos) m
            else None
        | [] => None
        end
    end.
Proof. destruct s; reflexivity. Qed.

(** The lazy repeat followed by a terminator stops at the first
    terminator. *)
Lemma run_until_first (k : cls) (t : ascii) (body post : text)
      (pos : nat) (m : marks) :
  Forall (fun c => cls_mem k c = true /\ c <> t) body ->
  run [Repeat false 0 k; One (Lit t)] (body ++ t :: post) pos m
  = Some (pos + List.length body + 1, m).
Proof.
  intros Hbody. revert pos.
  induction Hbody as [|c body [Hc Hct] _ IH]; intros pos.
  - simpl. rewrite Ascii.eqb_refl. f_equal. f_equal. lia.
  - rewrite run_lazy_step.
    change (0 =? 0) with true. cbv iota.
    change (run [One (Lit t)] ((c :: body) ++ t :: post) pos m)
      with (if Ascii.eqb t c
            then run [] (body ++ t :: post) (S pos) m else None).
    destruct (Ascii.eqb_spec t c) as [->|_]; [congruence|].
    change ((c :: body) ++ t :: post) with (c :: body ++ t :: post).
    cbv iota. rewrite Hc. change (pred 0) with 0.
    rewrite IH. simpl. f_equal. f_equal. lia.
Qed.

Lemma sub_from_skip (p : pattern) (r : template) (k : nat) (s : text) :
  sub_from p r k s = sub_from p r 0 (skipn k s).
Proof.
  revert k; induction s as [|c s IH]; intros [|k]; try reflexivity.
  simpl. apply IH.
Qed.

Lemma sub_hit (p : pattern) (r : template) (s : text) (n : nat) (m : marks) :
  s <> [] ->
  match_at p s = Some (S n, m) ->
  sub p r s = expand r s m ++ sub p r (skipn (S n) s).
Proof.
  intros Hs H. unfold sub. destruct s as [|c s]; [congruence|].
  simpl. rewrite H. f_equal. apply sub_from_skip.
Qed.

Lemma match_lits_miss (L : text) (k : pattern) (s : text) :
  startswith L s = false -> match_at (lits L ++ k) s = None.
Proof. intros H. unfold match_at. now rewrite run_lits, H. Qed.

(** A pattern that begins with a keyword leaves a text without the
    keyword as it is. *)
Lemma sub_miss (L : text) (k : pattern) (r : template) (s : text) :
  contains L s = false -> sub (lits L ++ k) r s = s.
Proof.
  unfold sub. induction s as [|c s IH]; intros H.
  - simpl. now rewrite (match_lits_miss _ _ _ (contains_no_head _ _ H)).
  - simpl sub_from.
    rewrite (match_lits_miss _ _ _ (contains_no_head _ _ H)).
    f_equal. apply IH. eapply contains_tail; eauto.
Qed.

(** Up to the first occurrence of its keyword the text is copied. *)
Lemma sub_keep_prefix (L : text) (k : pattern) (r : template)
      (pre rest : text) :
  L <> [] ->
  contains L (pre ++ removelast L) = false ->
  sub (lits L ++ k) r (pre ++ L ++ rest)
  = pre ++ sub (lits L ++ k) r (L ++ rest).
Proof.
  intros HL. unfold sub. induction pre as [|c pre IH]; intros H.
  - reflexivity.
  - change ((c :: pre) ++ L ++ rest) with (c :: pre ++ L ++ rest).
    simpl sub_from.
    rewrite match_lits_miss.
    + simpl. f_equal. apply IH.
      change ((c :: pre) ++ removelast L) with (c :: pre ++ removelast L) in H.
      eapply contains_tail; eauto.
    + apply contains_no_head in H.
      rewrite (app_removelast_last c HL) at 2.
      rewrite <- app_assoc.
      change (c :: pre ++ removelast L ++ [last L c] ++ rest)
        with ((c :: pre) ++ removelast L ++ [last L c] ++ rest).
      rewrite app_assoc. rewrite startswith_long; [exact H|].
      rewrite length_app. simpl.
      rewrite (app_removelast_last c HL) at 1.
      rewrite length_app. simpl. lia.
Qed.

End ReFacts.

(** ** Facts about the line pass *)

Module LineFacts.

Import TextFacts.

Lemma emit_cases (line : text) :
  emit line = []
  \/ (strip line <> [] /\ startswith (T "--") (strip line) = false
      /\ ((endswith (T ";") (strip line) = false /\ emit line = [strip line])
          \/ (endswith (T ";") (strip line) = true
              /\ emit line = [strip line; T "GO"]))).
Proof.
  unfold emit. destruct (strip line) as [|c l] eqn:E; [now left|].
  destruct (startswith (T "--") (c :: l)) eqn:Hc; [now left|].
  right. split; [discriminate|]. split; [reflexivity|].
  simpl negb. cbv iota.
  destruct (endswith (T ";") (c :: l)); [right|left]; now split.
Qed.

Lemma add_go_In (lines : list text) (l : text) :
  In l (add_go lines) ->
  l = T "GO"
  \/ exists line, In line lines /\ l = strip line /\ l <> []
                  /\ startswith (T "--") l = false.
Proof.
  induction lines as [|line lines IH]; simpl; [intros []|].
  intros H. apply in_app_or in H as [H|H].
  - destruct (emit_cases line) as [E|(Hne & Hc & [[_ E]|[_ E]])];
      rewrite E in H.
    + destruct H.
    + destruct H as [<-|[]]. right. exists line. auto.
    + destruct H as [<-|[<-|[]]]; [|now left].
      right. exists line. auto.
  - destruct (IH H) as [->|(line' & Hin & Hrest)]; [now left|].
    right. exists line'. auto.
Qed.

Lemma add_go_followed (lines : list text) (i : nat) (l : text) :
  nth_error (add_go lines) i = Some l ->
  endswith (T ";") l = true ->
  nth_error (add_go lines) (S i) = Some (T "GO").
Proof.
  revert i; induction lines as [|line lines IH]; intros i; simpl add_go.
  - destruct i; discriminate.
  - destruct (emit_cases line) as [E|(_ & _ & [[Hs E]|[Hs E]])];
      rewrite E.
    + apply IH.
    + destruct i as [|i]; cbn [app nth_error].
      * intros [= <-] H. congruence.
      * apply IH.
    + destruct i as [|[|i]]; cbn [app nth_error].
      * reflexivity.
      * intros [= <-] H. vm_compute in H. discriminate.
      * apply IH.
Qed.

Lemma output_line_no_newline (content l : text) :
  In l (output_lines content) -> ~ In NL l.
Proof.
  intros H. apply add_go_In in H as [->|(line & Hin & -> & _)].
  - vm_compute. intuition discriminate.
  - apply split_parts in Hin as [_ Hn].
    intros Hc. apply Hn. eapply infix_In; [apply strip_infix|exact Hc].
Qed.

Lemma output_line_not_empty (content l : text) :
  In l (output_lines content) -> l <> [].
Proof.
  intros H. apply add_go_In in H as [->|(line & _ & _ & Hne & _)].
  - discriminate.
  - exact Hne.
Qed.

(** Reading the written file back line by line gives the lines the
    loop collected. *)
Lemma text_lines_convert (content : text) :
  text_lines (convert_text content) = output_lines content.
Proof.
  unfold convert_text.
  pose proof (output_line_no_newline content) as Hnl.
  pose proof (output_line_not_empty content) as Hne.
  destruct (output_lines content) as [|l ls] eqn:E; [reflexivity|].
  assert (Hj : join [NL] (l :: ls) <> []).
  { destruct ls as [|l2 ls].
    - simpl. apply Hne. now left.
    - rewrite join_cons2. intros H. apply app_eq_nil in H as [H _].
      revert H. apply Hne. now left. }
  unfold text_lines. destruct (join [NL] (l :: ls)) as [|c j] eqn:Ej;
    [congruence|].
  rewrite <- Ej. apply split_join; [discriminate|].
  apply Forall_forall. exact Hnl.
Qed.

End LineFacts.

(** ** The properties of the converter and of the import runner *)

Import TextFacts ReplaceFacts ReFacts LineFacts.

Lemma convert_runs (input_file output_file : path) (w : world) (content : text) :
  files w input_file = Some content ->
  fst (convert_sqlite_to_sqlserver input_file output_file w) = Ok tt
  /\ files (snd (convert_sqlite_to_sqlserver input_file output_file w))
       output_file = Some (convert_text content).
Proof.
  intros H. unfold convert_sqlite_to_sqlserver, bind, read_file.
  rewrite H. simpl. now rewrite String.eqb_refl.
Qed.

(** C1: for the dump [PRAGMA foo; / BEGIN TRANSACTION; / CREATE TABLE T
    (a int); / INSERT INTO T VALUES('0'); / COMMIT;] the converter
    returns normally and the file it writes has exactly two lines: the
    statement [INSERT INTO [T] VALUES(0);] and, right after it, the
    batch separator [GO]. *)
Theorem scenario_output (input_file output_file : path) (w : world) :
  files w input_file = Some scenario ->
  fst (convert_sqlite_to_sqlserver input_file output_file w) = Ok tt
  /\ exists content,
      files (snd (convert_sqlite_to_sqlserver input_file output_file w))
        output_file = Some content
      /\ text_lines content = [T "INSERT INTO [T] VALUES(0);"; T "GO"].
Proof.
  intros H. destruct (convert_runs input_file output_file w scenario H)
    as [Hok Hfile].
  split; [exact Hok|]. exists (convert_text scenario).
  split; [exact Hfile|]. vm_compute. reflexivity.
Qed.

Lemma scenario_output_witness :
  files scenario_world "sqlitedata.sql"%string = Some scenario
  /\ fst (convert_sqlite_to_sqlserver "sqlitedata.sql"%string "sqlserver_import.sql"%string
            scenario_world) = Ok tt.
Proof.
  split; [reflexivity|].
  apply (scenario_output "sqlitedata.sql"%string "sqlserver_import.sql"%string
           scenario_world).
  reflexivity.
Defined.

(** C4: in the file the converter writes, every line that ends with the
    statement terminator [;] is immediately followed by a line that is
    the batch separator [GO]; no line is blank, not even a line of
    whitespace only (every line holds a character that is not
    whitespace), and no line begins with the comment marker [--],
    whether at its first column or behind leading whitespace. *)
Theorem separator_follows_terminator (content : text) :
  (forall i l,
      nth_error (text_lines (convert_text content)) i = Some l ->
      endswith (T ";") l = true ->
      nth_error (text_lines (convert_text content)) (S i) = Some (T "GO"))
  /\ (forall l,
         In l (text_lines (convert_text content)) ->
         l <> [] /\ startswith (T "--") l = false
         /\ (exists c, In c l /\ isspace c = false)
         /\ (forall ws rest,
                l = ws ++ T "--" ++ rest -> forallb isspace ws = false)).
Proof.
  rewrite text_lines_convert. split.
  - intros i l. apply add_go_followed.
  - intros l H. apply add_go_In in H as [->|(line & _ & E & Hne & Hc)].
    + split; [discriminate|]. split; [reflexivity|]. split.
      * exists "G"%char. split; [now left|reflexivity].
      * intros [|a ws] rest E; [discriminate|].
        injection E as <- _. reflexivity.
    + split; [exact Hne|]. split; [exact Hc|].
      destruct l as [|c r]; [congruence|].
      assert (Hs : isspace c = false)
        by (symmetry in E; apply (strip_head _ _ _ E)).
      split.
      * exists c. split; [now left|exact Hs].
      * intros [|a ws] rest E'.
        -- change ([] ++ T "--" ++ rest) with (T "--" ++ rest) in E'.
           rewrite E', startswith_app in Hc. discriminate.
        -- injection E' as <- _. simpl. now rewrite Hs.
Qed.

Lemma separator_follows_terminator_witness :
  nth_error (text_lines (convert_text scenario)) 1 = Some (T "GO").
Proof.
  apply (proj1 (separator_follows_terminator scenario) 0
           (T "INSERT INTO [T] VALUES(0);")); reflexivity.
Defined.

(** C10: no line of the file the converter writes begins or ends with a
    whitespace character. *)
Theorem output_lines_stripped (content l : text) :
  In l (text_lines (convert_text content)) ->
  (forall c rest, l = c :: rest -> isspace c = false)
  /\ (forall c init, l = init ++ [c] -> isspace c = false).
Proof.
  rewrite text_lines_convert. intros H.
  apply add_go_In in H as [->|(line & _ & -> & _)].
  - split.
    + intros c rest [= <- _]. reflexivity.
    + intros c init E. change (T "GO") with (["G"%char] ++ ["O"%char]) in E.
      apply app_inj_tail in E as [_ <-]. reflexivity.
  - split.
    + intros c rest E. eapply strip_head; eauto.
    + intros c init E. eapply strip_last; eauto.
Qed.

Lemma output_lines_stripped_witness :
  In (T "x;") (text_lines (convert_text (T "   x;  ")))
  /\ isspace "x"%char = false.
Proof.
  assert (H : In (T "x;") (text_lines (convert_text (T "   x;  ")))).
  { vm_compute. now left. }
  split; [exact H|].
  exact (proj1 (output_lines_stripped (T "   x;  ") (T "x;") H)
           "x"%char (T ";") eq_refl).
Defined.

Lemma add_go_not_nil (lines : list text) :
  add_go lines <> [] <->
  exists line, In line lines /\ strip line <> []
               /\ startswith (T "--") (strip line) = false.
Proof.
  induction lines as [|line lines IH]; simpl add_go.
  - split; [congruence|intros (l & [] & _)].
  - destruct (emit_cases line) as [E|(Hne & Hc & HE)].
    + rewrite E. simpl app. rewrite IH. split.
      * intros (l & Hin & H). exists l. split; [now right|exact H].
      * intros (l & [<-|Hin] & Hne & Hc); [|exists l; now split].
        exfalso. unfold emit in E.
        destruct (strip line) as [|c s]; [congruence|].
        rewrite Hc in E. discriminate.
    + split.
      * intros _. exists line. split; [now left|now split].
      * intros _. destruct HE as [[_ E]|[_ E]]; rewrite E; discriminate.
Qed.

Lemma convert_text_not_nil (content : text) :
  convert_text content <> [] <-> output_lines content <> [].
Proof.
  split.
  - intros H E. apply H. unfold convert_text. now rewrite E.
  - intros H E. apply H. rewrite <- text_lines_convert. now rewrite E.
Qed.

(** C8, as stated, fails: on a dump with a schema and no rows the
    converter returns normally and the file it has written is empty. *)
Lemma empty_output_after_success :
  fst (convert_sqlite_to_sqlserver "sqlitedata.sql"%string
         "sqlserver_import.sql"%string schema_only_world) = Ok tt
  /\ files (snd (convert_sqlite_to_sqlserver "sqlitedata.sql"%string
                   "sqlserver_import.sql"%string schema_only_world))
       "sqlserver_import.sql"%string = Some [].
Proof. split; vm_compute; reflexivity. Qed.

(** C8, amended: whenever the converter returns normally, the input
    file was there, the output file exists and holds the emitted lines
    joined by newlines; that content is non-empty exactly when some line
    of the rewritten document is, once stripped, neither blank nor a
    comment. *)
Theorem output_exists_after_success
        (input_file output_file : path) (w : world) :
  fst (convert_sqlite_to_sqlserver input_file output_file w) = Ok tt ->
  exists content,
    files w input_file = Some content
    /\ files (snd (convert_sqlite_to_sqlserver input_file output_file w))
         output_file = Some (convert_text content)
    /\ (convert_text content <> [] <->
        exists line, In line (split NL (rewrite content))
                     /\ strip line <> []
                     /\ startswith (T "--") (strip line) = false).
Proof.
  intros Hok. destruct (files w input_file) as [content|] eqn:E.
  - exists content. split; [reflexivity|].
    split; [apply (convert_runs _ _ _ _ E)|].
    rewrite convert_text_not_nil. apply add_go_not_nil.
  - exfalso. revert Hok.
    unfold convert_sqlite_to_sqlserver, bind, read_file. rewrite E.
    discriminate.
Qed.

Lemma output_exists_after_success_witness :
  fst (convert_sqlite_to_sqlserver "sqlitedata.sql"%string
         "sqlserver_import.sql"%string scenario_world) = Ok tt
  /\ exists content,
      files scenario_world "sqlitedata.sql"%string = Some content
      /\ files (snd (convert_sqlite_to_sqlserver "sqlitedata.sql"%string
                       "sqlserver_import.sql"%string scenario_world))
           "sqlserver_import.sql"%string = Some (convert_text content)
      /\ (convert_text content <> [] <->
          exists line, In line (split NL (rewrite content))
                       /\ strip line <> []
                       /\ startswith (T "--") (strip line) = false).
Proof.
  split; [reflexivity|].
  apply (output_exists_after_success "sqlitedata.sql"%string
           "sqlserver_import.sql"%string scenario_world).
  reflexivity.
Defined.

(** C9: the import runner returns the flag "the client exited with
    status zero"; on a non-zero status it prints the captured standard
    error and returns [false] after that single client invocation; a
    copy that exits with a non-zero status, or cannot be started,
    raises, and the client is not invoked. *)
Theorem import_reports_client_status
        (os : list (list string) -> list string -> option CompletedProcess)
        (sql_file : path) (w : world) :
  let copy := copy_cmd sql_file in
  let client := client_cmd sql_file in
  let r := import_to_sqlserver os sql_file w in
  (forall cp,
      os (spawned w) copy = Some cp -> returncode cp <> 0%Z ->
      fst r = Raise (CalledProcessError (returncode cp) copy)
      /\ spawned (snd r) = spawned w ++ [copy])
  /\ (forall cp res,
         os (spawned w) copy = Some cp -> returncode cp = 0%Z ->
         os (spawned w ++ [copy]) client = Some res ->
         fst r = Ok (Z.eqb (returncode res) 0)
         /\ spawned (snd r) = spawned w ++ [copy; client]
         /\ printed (snd r)
            = printed w
              ++ [MsgImporting;
                  if Z.eqb (returncode res) 0
                  then MsgImported
                  else MsgImportFailed (stderr res)])
  /\ (forall b,
         fst r = Ok b ->
         exists res,
           os (spawned w ++ [copy]) client = Some res
           /\ (b = true <-> returncode res = 0%Z))
  /\ (os (spawned w) copy = None ->
      fst r = Raise (OSError copy) /\ spawned (snd r) = spawned w ++ [copy]).
Proof.
  intros copy client r. subst r.
  unfold import_to_sqlserver, bind, subprocess_run, print, ret.
  fold copy client. simpl.
  destruct (os (spawned w) copy) as [cp|] eqn:Ecp; simpl.
  - destruct (Z.eqb_spec (returncode cp) 0) as [Hz|Hnz]; simpl.
    + destruct (os (spawned w ++ [copy]) client) as [res|] eqn:Eres; simpl.
      * split; [intros cp' [= <-] Hcp; congruence|].
        destruct (Z.eqb_spec (returncode res) 0) as [Hr|Hr]; simpl.
        -- split; [|split; [|discriminate]].
           ++ intros cp' res' _ _ [= <-].
              destruct (Z.eqb_spec (returncode res) 0); [|congruence].
              rewrite <- !app_assoc. now repeat split.
           ++ intros b [= <-]. exists res. now repeat split.
        -- split; [|split; [|discriminate]].
           ++ intros cp' res' _ _ [= <-].
              destruct (Z.eqb_spec (returncode res) 0); [congruence|].
              rewrite <- !app_assoc. now repeat split.
           ++ intros b [= <-]. exists res.
              split; [reflexivity|]. split; congruence.
      * split; [intros cp' [= <-] Hcp; congruence|].
        split; [intros; discriminate|].
        split; intros; discriminate.
    + split; [intros cp' [= <-] _; now split|].
      split; [intros cp' res' [= <-] Hcp; congruence|].
      split; intros; discriminate.
  - split; [intros; discriminate|].
    split; [intros; discriminate|].
    split; [intros; discriminate|].
    intros _. now split.
Qed.

Lemma import_reports_client_status_witness :
  fst (import_to_sqlserver os_client_fails "sqlserver_import.sql"%string
         scenario_world) = Ok false
  /\ printed (snd (import_to_sqlserver os_client_fails
                     "sqlserver_import.sql"%string scenario_world))
     = [MsgImporting; MsgImportFailed (T "Login failed")].
Proof.
  pose proof (proj1 (proj2 (import_reports_client_status os_client_fails
                "sqlserver_import.sql"%string scenario_world))
                _ _ eq_refl eq_refl eq_refl) as (H1 & _ & H3).
  split; [exact H1|exact H3].
Defined.

(** *** Deletion by a keyword pattern *)

Lemma contains_prefix (p q s : text) :
  contains p s = false -> contains (p ++ q) s = false.
Proof.
  induction s as [|c s IH]; simpl; intros H.
  - rewrite orb_false_r in *.
    destruct (startswith (p ++ q) []) eqn:E; [|reflexivity].
    apply startswith_prefix in E. congruence.
  - apply orb_false_iff in H as [H1 H2]. apply orb_false_iff. split; auto.
    destruct (startswith (p ++ q) (c :: s)) eqn:E; [|reflexivity].
    apply startswith_prefix in E. congruence.
Qed.

Lemma skipn_past (a b : text) (n : nat) :
  n = List.length a -> skipn n (a ++ b) = b.
Proof.
  intros ->. now rewrite skipn_app, skipn_all, Nat.sub_diag.
Qed.

(** A keyword, anything of class [k] without the terminator, and the
    terminator are deleted together; the scan goes on behind them. *)
Lemma sub_delete_first (L : text) (k : cls) (t : ascii) (body post : text) :
  L <> [] ->
  Forall (fun c => cls_mem k c = true /\ c <> t) body ->
  sub (lits L ++ [Repeat false 0 k; One (Lit t)]) [] (L ++ body ++ t :: post)
  = sub (lits L ++ [Repeat false 0 k; One (Lit t)]) [] post.
Proof.
  intros HL Hbody.
  assert (Hm : match_at (lits L ++ [Repeat false 0 k; One (Lit t)])
                 (L ++ body ++ t :: post)
               = Some (S (List.length L + List.length body), no_marks)).
  { unfold match_at. rewrite run_lits, startswith_app.
    rewrite skipn_app, skipn_all, Nat.sub_diag.
    change ([] ++ skipn 0 (body ++ t :: post)) with (body ++ t :: post).
    rewrite run_until_first by exact Hbody. f_equal. f_equal. lia. }
  rewrite (sub_hit _ _ _ _ _ (fun E => HL (proj1 (app_eq_nil _ _ E))) Hm).
  cbn [expand app]. f_equal.
  replace (L ++ body ++ t :: post) with ((L ++ body ++ [t]) ++ post)
    by (now rewrite <- !app_assoc).
  apply skipn_past. rewrite !length_app. simpl. lia.
Qed.

(** C2, as stated, fails: the deletion ends at the first terminator
    behind the keyword, here the one inside the string literal, and the
    rest of the document stays; a deletion up to the last terminator
    would leave nothing. *)
Lemma create_table_deletion_not_to_last :
  rule5 quoted_terminator = doc ["');"; "INSERT INTO T VALUES(2);"]%string
  /\ sub CREATE_TABLE_TO_LAST [] quoted_terminator = []
  /\ rule5 quoted_terminator <> sub CREATE_TABLE_TO_LAST [] quoted_terminator.
Proof.
  split; [vm_compute; reflexivity|].
  split; [vm_compute; reflexivity|].
  vm_compute. discriminate.
Qed.

(** C2, amended: rule 5 deletes from the first occurrence of CREATE
    TABLE up to and including the first terminator behind it, across
    line ends and whether or not that terminator lies inside a string
    literal; what stands before is kept and what follows is processed
    in the same way. *)
Theorem create_table_deleted_to_first_terminator (pre body post : text) :
  contains (T "CREATE TABLE") (pre ++ removelast (T "CREATE TABLE")) = false ->
  ~ In ";"%char body ->
  rule5 (pre ++ T "CREATE TABLE" ++ body ++ ";"%char :: post)
  = pre ++ rule5 post.
Proof.
  intros Hpre Hbody. unfold rule5, CREATE_TABLE, until_semicolon.
  rewrite sub_keep_prefix by (discriminate || exact Hpre).
  f_equal. apply sub_delete_first; [discriminate|].
  apply Forall_forall. intros c Hc. split; [reflexivity|].
  intros ->. now apply Hbody.
Qed.

Lemma create_table_deleted_to_first_terminator_witness :
  rule5 (T "-- schema" ++ T "CREATE TABLE" ++ T " T (a text DEFAULT '"
         ++ ";"%char :: T "');")
  = T "-- schema" ++ rule5 (T "');").
Proof.
  apply (create_table_deleted_to_first_terminator
           (T "-- schema") (T " T (a text DEFAULT '") (T "');")).
  - reflexivity.
  - vm_compute. intuition discriminate.
Defined.

(** C3, as stated, fails: with rule 4 the existence check it inserts
    stays in the output as a line of its own; without rule 4 that line
    is not there. *)
Lemma rule4_changes_output :
  convert_text guarded_table
  = doc ["IF NOT EXISTS (SELECT * FROM sys.objects WHERE object_id = OBJECT_ID(N'[dbo].[{table}]') AND type in (N'U'))";
         "INSERT INTO [T] VALUES(1);"; "GO"]%string
  /\ convert_text_without_rule4 guarded_table
     = doc ["INSERT INTO [T] VALUES(1);"; "GO"]%string
  /\ convert_text guarded_table <> convert_text_without_rule4 guarded_table.
Proof.
  split; [vm_compute; reflexivity|].
  split; [vm_compute; reflexivity|].
  vm_compute. discriminate.
Qed.

(** C3, amended: when the text that reaches rule 4 holds no CREATE TABLE
    IF NOT EXISTS, the converter writes the same output with rule 4 as
    without it. *)
Theorem rule4_idle_without_keyword (content : text) :
  contains (T "CREATE TABLE IF NOT EXISTS") (rule3 (rule2 (rule1 content)))
  = false ->
  convert_text content = convert_text_without_rule4 content.
Proof.
  intros H.
  unfold convert_text, convert_text_without_rule4, output_lines, rewrite,
    rewrite_without_rule4, rules_1_7.
  unfold rule4 at 1, CREATE_TABLE_IF_NOT_EXISTS.
  rewrite <- (app_nil_r (lits (T "CREATE TABLE IF NOT EXISTS"))).
  rewrite sub_miss by exact H. reflexivity.
Qed.

Lemma rule4_idle_without_keyword_witness :
  convert_text scenario = convert_text_without_rule4 scenario.
Proof.
  apply (rule4_idle_without_keyword scenario). vm_compute. reflexivity.
Defined.

(** *** The second pass *)

Lemma has_pattern_false (line k : text) :
  has_pattern line = false -> In k keywords -> contains k line = false.
Proof.
  unfold has_pattern. intros H Hk.
  destruct (contains k line) eqn:E; [|reflexivity].
  assert (existsb (fun k => contains k line) keywords = true)
    by (apply existsb_exists; eauto).
  congruence.
Qed.

Lemma keyword_no_newline (k : text) : In k keywords -> ~ In NL k.
Proof.
  intros Hk. unfold keywords in Hk. simpl in Hk.
  intuition (subst; vm_compute in *; intuition discriminate).
Qed.

Lemma keyword_not_in_nil (k : text) : In k keywords -> contains k [] = false.
Proof.
  intros Hk. unfold keywords in Hk. simpl in Hk.
  intuition (subst; reflexivity).
Qed.

Lemma keyword_free (d k : text) :
  Forall (fun l => has_pattern l = false) (text_lines d) ->
  In k keywords -> contains k d = false.
Proof.
  intros Hall Hk. destruct d as [|c d]; [now apply keyword_not_in_nil|].
  unfold text_lines in Hall. rewrite <- (join_split NL (c :: d)).
  apply contains_join.
  - now apply keyword_no_newline.
  - eapply Forall_impl; [|exact Hall].
    intros l Hl. now apply has_pattern_false.
  - now apply keyword_not_in_nil.
Qed.

(** On a document none of whose lines holds a keyword of rules 1 to 7,
    these rules change nothing. *)
Lemma deletion_rules_idle (d : text) :
  Forall (fun l => has_pattern l = false) (text_lines d) ->
  rules_1_7 d = d.
Proof.
  intros Hall.
  pose proof (keyword_free d) as Hk. specialize (Hk) .
  assert (H1 : contains (T "PRAGMA") d = false)
    by (apply (Hk _ Hall); simpl; auto).
  assert (H2 : contains (T "BEGIN TRANSACTION;") d = false)
    by (apply (Hk _ Hall); simpl; auto).
  assert (H3 : contains (T "COMMIT;") d = false)
    by (apply (Hk _ Hall); simpl; auto).
  assert (H5 : contains (T "CREATE TABLE") d = false)
    by (apply (Hk _ Hall); simpl; auto).
  assert (H6 : contains (T "CREATE INDEX") d = false)
    by (apply (Hk _ Hall); simpl; auto 10).
  assert (H7 : contains (T "CREATE UNIQUE INDEX") d = false)
    by (apply (Hk _ Hall); simpl; auto 10).
  assert (H4 : contains (T "CREATE TABLE IF NOT EXISTS") d = false)
    by (apply (contains_prefix (T "CREATE TABLE") (T " IF NOT EXISTS"));
        exact H5).
  unfold rules_1_7.
  assert (E1 : rule1 d = d) by (apply sub_miss; exact H1).
  assert (E2 : rule2 d = d).
  { unfold rule2, BEGIN_TRANSACTION.
    rewrite <- (app_nil_r (lits _)). apply sub_miss; exact H2. }
  assert (E3 : rule3 d = d).
  { unfold rule3, COMMIT.
    rewrite <- (app_nil_r (lits _)). apply sub_miss; exact H3. }
  assert (E4 : rule4 d = d).
  { unfold rule4, CREATE_TABLE_IF_NOT_EXISTS.
    rewrite <- (app_nil_r (lits _)). apply sub_miss; exact H4. }
  assert (E5 : rule5 d = d) by (apply sub_miss; exact H5).
  assert (E6 : rule6 d = d) by (apply sub_miss; exact H6).
  assert (E7 : rule7 d = d) by (apply sub_miss; exact H7).
  now rewrite E1, E2, E3, E4, E5, E6, E7.
Qed.




(** *** The literal rules *)

Lemma no_straddle_nil (old b : text) : no_straddle old [] b.
Proof.
  intros x y E Hy. symmetry in E. apply app_eq_nil in E as [_ ->].
  congruence.
Qed.

(** An occurrence of [old] set off on the left by the start of the text
    or by a character foreign to [old] is replaced, and the text on
    either side is treated by itself. *)
Lemma replace_set_off (old new pre post : text) :
  old <> [] ->
  (pre = [] \/ exists init d, pre = init ++ [d] /\ ~ In d old) ->
  replace old new (pre ++ old ++ post)
  = replace old new pre ++ new ++ replace old new post.
Proof.
  intros Hold Hpre. rewrite replace_app.
  - now rewrite replace_hit.
  - exact Hold.
  - destruct Hpre as [->|(init & d & -> & Hd)].
    + apply no_straddle_nil.
    + now apply no_straddle_last.
Qed.

Lemma replace_last_foreign (old new init : text) (d : ascii) :
  old <> [] -> ~ In d old ->
  replace old new (init ++ [d]) = replace old new init ++ [d].
Proof.
  intros Hold Hd. rewrite replace_foreign by assumption.
  destruct old; [congruence|reflexivity].
Qed.

Lemma delimiter_not_word (d : ascii) :
  delimiter d = true -> isword d = false /\ d <> "'"%char.
Proof.
  unfold delimiter. intros H. apply andb_true_iff in H as [Hw Hq].
  apply negb_true_iff in Hw, Hq. split; [exact Hw|].
  now apply Ascii.eqb_neq.
Qed.

Lemma delimiter_foreign_0 (d : ascii) :
  delimiter d = true -> ~ In d (T "'0'").
Proof.
  intros H. apply delimiter_not_word in H as [Hw Hq].
  intros [E|[E|[E|[]]]]; subst d; try congruence.
  vm_compute in Hw. discriminate.
Qed.

Lemma delimiter_foreign_1 (d : ascii) :
  delimiter d = true -> ~ In d (T "'1'").
Proof.
  intros H. apply delimiter_not_word in H as [Hw Hq].
  intros [E|[E|[E|[]]]]; subst d; try congruence.
  vm_compute in Hw. discriminate.
Qed.

Lemma standalone_sides (pre post : text) :
  standalone pre post = true ->
  (pre = [] \/ exists init d, pre = init ++ [d] /\ delimiter d = true)
  /\ (post = [] \/ exists d rest, post = d :: rest /\ delimiter d = true).
Proof.
  unfold standalone. intros H. apply andb_true_iff in H as [Hl Hr]. split.
  - destruct (rev pre) as [|d r] eqn:E.
    + left. apply (f_equal (@rev ascii)) in E.
      now rewrite rev_involutive in E.
    + right. exists (rev r), d. split; [|exact Hl].
      apply (f_equal (@rev ascii)) in E.
      now rewrite rev_involutive in E.
  - destruct post as [|d rest]; [now left|].
    right. now exists d, rest.
Qed.

Lemma replace_step (old new : text) (c : ascii) (s : text) :
  old <> [] -> startswith old (c :: s) = false ->
  replace old new (c :: s) = c :: replace old new s.
Proof.
  intros Hold H. destruct old as [|o old]; [congruence|].
  unfold replace. cbn [replace_from]. now rewrite H.
Qed.

(** The first replacement of rule 9 passes over a standalone ['1']. *)
Lemma replace_0_over_1 (post : text) :
  (post = [] \/ exists d rest, post = d :: rest /\ delimiter d = true) ->
  replace (T "'0'") (T "0") (T "'1'" ++ post)
  = T "'1'" ++ replace (T "'0'") (T "0") post.
Proof.
  intros Hpost.
  change (T "'1'" ++ post)
    with (["'"%char] ++ "1"%char :: "'"%char :: post).
  rewrite replace_foreign;
    [|discriminate|vm_compute; intuition discriminate].
  change (replace (T "'0'") (T "0") ["'"%char]) with ["'"%char].
  rewrite replace_step; [reflexivity|discriminate|].
  destruct (startswith (T "'0'") ("'"%char :: post)) eqn:E; [|reflexivity].
  apply startswith_split in E as [r E]. exfalso.
  destruct Hpost as [->|(d & rest & -> & Hd)]; [discriminate|].
  injection E as -> _. vm_compute in Hd. discriminate.
Qed.

Lemma rule9_zero (pre post : text) :
  (pre = [] \/ exists init d, pre = init ++ [d] /\ delimiter d = true) ->
  rule9 (pre ++ T "'0'" ++ post) = rule9 pre ++ T "0" ++ rule9 post.
Proof.
  intros Hpre. unfold rule9.
  rewrite replace_set_off.
  - apply (replace_foreign (T "'1'") (T "1")); [discriminate|].
    vm_compute. intuition discriminate.
  - discriminate.
  - destruct Hpre as [->|(init & d & -> & Hd)]; [now left|].
    right. exists init, d. split; [reflexivity|].
    now apply delimiter_foreign_0.
Qed.

Lemma rule9_one (pre post : text) :
  (pre = [] \/ exists init d, pre = init ++ [d] /\ delimiter d = true) ->
  (post = [] \/ exists d rest, post = d :: rest /\ delimiter d = true) ->
  rule9 (pre ++ T "'1'" ++ post) = rule9 pre ++ T "1" ++ rule9 post.
Proof.
  intros Hpre Hpost. unfold rule9.
  rewrite replace_app.
  - rewrite (replace_0_over_1 post Hpost).
    apply replace_set_off; [discriminate|].
    destruct Hpre as [->|(init & d & -> & Hd)]; [now left|].
    right. exists (replace (T "'0'") (T "0") init), d. split.
    + apply replace_last_foreign; [discriminate|].
      now apply delimiter_foreign_0.
    + now apply delimiter_foreign_1.
  - discriminate.
  - destruct Hpre as [->|(init & d & -> & Hd)].
    + apply no_straddle_nil.
    + apply no_straddle_last. now apply delimiter_foreign_0.
Qed.

(** C5, as stated, fails on input documents: a standalone ['0'] inside
    a CREATE TABLE statement is deleted with the statement and no [0]
    is written; and where rule 3 deletes a COMMIT; in front of it, the
    literal meets the text before it and rule 9 takes a different
    occurrence, leaving a quote behind. *)
Lemma quoted_zero_not_unquoted :
  standalone default_zero_pre default_zero_post = true
  /\ convert_text (default_zero_pre ++ T "'0'" ++ default_zero_post) = []
  /\ contains (T "0")
       (rewrite (default_zero_pre ++ T "'0'" ++ default_zero_post)) = false
  /\ standalone (T "'0COMMIT;") (T " z") = true
  /\ rewrite (T "'0COMMIT;" ++ T "'0'" ++ T " z") = T "00' z".
Proof. repeat split; vm_compute; reflexivity. Qed.

(** C5, amended: where the text that reaches rule 9 holds the quoted literal
    ['0'] standing alone (the characters next to it, if any, are
    neither word characters nor quotes), rule 9 puts the bare numeral
    [0] in its place and treats the text on either side by itself, and
    the numeral stays through rule 10 into the rewritten document; the
    same holds for ['1'] and [1]. *)
Theorem boolean_literals_unquoted (content pre post : text) :
  standalone pre post = true ->
  rule9 (pre ++ T "'0'" ++ post) = rule9 pre ++ T "0" ++ rule9 post
  /\ rule9 (pre ++ T "'1'" ++ post) = rule9 pre ++ T "1" ++ rule9 post
  /\ (rule8 (rules_1_7 content) = pre ++ T "'0'" ++ post ->
      rewrite content
      = rule10 (rule9 pre) ++ T "0" ++ rule10 (rule9 post))
  /\ (rule8 (rules_1_7 content) = pre ++ T "'1'" ++ post ->
      rewrite content
      = rule10 (rule9 pre) ++ T "1" ++ rule10 (rule9 post)).
Proof.
  intros H. apply standalone_sides in H as [Hpre Hpost].
  pose proof (rule9_zero pre post Hpre) as H0.
  pose proof (rule9_one pre post Hpre Hpost) as H1.
  split; [exact H0|]. split; [exact H1|]. split.
  - intros E. unfold rewrite. rewrite E, H0.
    apply (replace_foreign (T "''") (T "NULL")); [discriminate|].
    vm_compute. intuition discriminate.
  - intros E. unfold rewrite. rewrite E, H1.
    apply (replace_foreign (T "''") (T "NULL")); [discriminate|].
    vm_compute. intuition discriminate.
Qed.

Lemma boolean_literals_unquoted_witness :
  rewrite (T "INSERT INTO T VALUES(7, '1', '');")
  = rule10 (rule9 (T "INSERT INTO [T] VALUES(7, ")) ++ T "1"
    ++ rule10 (rule9 (T ", '');")).
Proof.
  apply (proj2 (proj2 (boolean_literals_unquoted
           (T "INSERT INTO T VALUES(7, '1', '');")
           (T "INSERT INTO [T] VALUES(7, ") (T ", '');") eq_refl))).
  vm_compute. reflexivity.
Defined.

(** What rule 10 writes starts with a quote only where its input did. *)
Lemma rule10_head (s : text) :
  startswith (T "'") s = false ->
  startswith (T "'") (replace_from (T "''") (T "NULL") 0 s) = false.
Proof.
  destruct s as [|d s]; [reflexivity|]. intros H.
  cbn [replace_from].
  destruct (startswith (T "''") (d :: s)) eqn:E; [reflexivity|].
  exact H.
Qed.

Lemma rule10_leaves_no_pair (k : nat) (s : text) :
  contains (T "''") (replace_from (T "''") (T "NULL") k s) = false.
Proof.
  revert k; induction s as [|c s IH]; intros k; [reflexivity|].
  destruct k as [|k]; cbn [replace_from]; [|apply IH].
  destruct (startswith (T "''") (c :: s)) eqn:E.
  - change (T "NULL" ++ ?x)
      with ("N"%char :: "U"%char :: "L"%char :: "L"%char :: x).
    cbn [contains]. rewrite IH. reflexivity.
  - cbn [contains]. rewrite IH, orb_false_r.
    destruct (startswith (T "''") (c :: replace_from (T "''") (T "NULL") 0 s))
      eqn:E'; [|reflexivity].
    exfalso.
    change (T "''") with ("'"%char :: T "'") in E, E'.
    cbn [startswith] in E, E'.
    apply andb_true_iff in E' as [Hc E']. rewrite Hc in E. simpl in E.
    rewrite rule10_head in E' by exact E. discriminate.
Qed.

(** C6, as stated, fails on input documents: in a row whose value holds
    escaped quotes around a zero, rule 9 takes one quote of each of the
    two pairs, so that no pair reaches rule 10 and no [NULL] is
    written. *)
Lemma empty_pairs_vanish_unreplaced :
  contains (T "''") escaped_quotes = true
  /\ convert_text escaped_quotes
     = doc ["INSERT INTO [T] VALUES('a'0'b');"; "GO"]%string
  /\ contains (T "NULL") (convert_text escaped_quotes) = false.
Proof. repeat split; vm_compute; reflexivity. Qed.

(** C6, amended: rule 10 puts [NULL] for the empty-quote pair wherever
    it stands in the text that reaches it (the document after rules 1
    to 9), whatever the pair means: the leftmost pair of that text
    becomes [NULL] and the text behind it is treated in the same way, a
    text without a pair is left alone, and no pair is left in the file
    the converter writes. *)
Theorem empty_quotes_become_null (content : text) :
  contains (T "''") (convert_text content) = false
  /\ (forall pre post,
         contains (T "''") (pre ++ T "'") = false ->
         rule10 (pre ++ T "''" ++ post) = pre ++ T "NULL" ++ rule10 post)
  /\ (contains (T "''") content = false -> rule10 content = content)
  /\ (forall pre post,
         rule9 (rule8 (rules_1_7 content)) = pre ++ T "''" ++ post ->
         contains (T "''") (pre ++ T "'") = false ->
         rewrite content = pre ++ T "NULL" ++ rule10 post).
Proof.
  assert (Hleft : forall pre post,
             contains (T "''") (pre ++ T "'") = false ->
             rule10 (pre ++ T "''" ++ post) = pre ++ T "NULL" ++ rule10 post).
  { intros pre post H. unfold rule10.
    rewrite replace_app.
    + rewrite replace_hit by discriminate.
      rewrite replace_miss; [reflexivity|discriminate|].
      apply (contains_within _ _ (pre ++ T "'")); [|exact H].
      exists [], (T "'"). now rewrite app_nil_l.
    + discriminate.
    + intros x y E Hy Hs.
      destruct (startswith (T "''") y) eqn:Ey; [reflexivity|]. exfalso.
      assert (Hc : contains (T "''") (y ++ T "'") = false).
      { apply (contains_within _ _ (pre ++ T "'")); [|exact H].
        exists x, []. rewrite E. now rewrite app_nil_r, app_assoc. }
      apply contains_no_head in Hc.
      destruct y as [|a [|b y]]; [congruence| |].
      * simpl in Hs, Hc. congruence.
      * simpl in Ey, Hs. congruence. }
  split; [|split; [exact Hleft|split]].
  - unfold convert_text. apply contains_join.
    + vm_compute. intuition discriminate.
    + apply Forall_forall. intros l H.
      apply add_go_In in H as [->|(line & Hin & -> & _)]; [reflexivity|].
      apply (contains_within _ _ line (strip_infix line)).
      apply split_parts in Hin as [Hin _].
      apply (contains_within _ _ _ Hin).
      unfold rewrite, rule10, replace. apply rule10_leaves_no_pair.
    + reflexivity.
  - intros H. apply replace_miss; [discriminate|exact H].
  - intros pre post E H. unfold rewrite. rewrite E. now apply Hleft.
Qed.

Lemma empty_quotes_become_null_witness :
  convert_text (T "INSERT INTO T VALUES('');")
  = doc ["INSERT INTO [T] VALUES(NULL);"; "GO"]%string
  /\ rule10 (T "VALUES(" ++ T "''" ++ T ");")
     = T "VALUES(" ++ T "NULL" ++ rule10 (T ");").
Proof.
  split; [vm_compute; reflexivity|].
  apply (proj1 (proj2 (empty_quotes_become_null [])) (T "VALUES(") (T ");")).
  reflexivity.
Defined.

(** ** Further properties of the converter *)

(** X1: without the input file the converter raises [FileNotFoundError] for
    that path and does nothing else: no file is written, nothing is
    printed, no process is started. *)
Theorem convert_missing_input (input_file output_file : path) (w : world) :
  files w input_file = None ->
  convert_sqlite_to_sqlserver input_file output_file w
  = (Raise (FileNotFoundError input_file), w).
Proof.
  intros H. unfold convert_sqlite_to_sqlserver, bind, read_file.
  now rewrite H.
Qed.

Lemma convert_missing_input_witness :
  files empty_world "sqlitedata.sql"%string = None
  /\ convert_sqlite_to_sqlserver "sqlitedata.sql"%string
       "sqlserver_import.sql"%string empty_world
     = (Raise (FileNotFoundError "sqlitedata.sql"%string), empty_world).
Proof.
  split; [reflexivity|].
  apply (convert_missing_input "sqlitedata.sql"%string
           "sqlserver_import.sql"%string empty_world).
  reflexivity.
Defined.

(** X2: a run of the converter that returns normally has read the
    input, printed exactly one line, the confirmation naming the output
    path, and started no process.  The input is read before the output
    is opened, so when both are the same path the run has put the
    converted text in the place of the dump. *)
Theorem convert_success_effects
        (input_file output_file : path) (w : world) :
  fst (convert_sqlite_to_sqlserver input_file output_file w) = Ok tt ->
  exists content,
    files w input_file = Some content
    /\ printed (snd (convert_sqlite_to_sqlserver input_file output_file w))
       = printed w ++ [MsgConverted output_file]
    /\ spawned (snd (convert_sqlite_to_sqlserver input_file output_file w))
       = spawned w
    /\ (input_file = output_file ->
        files (snd (convert_sqlite_to_sqlserver input_file output_file w))
          input_file = Some (convert_text content)).
Proof.
  unfold convert_sqlite_to_sqlserver, bind, read_file.
  destruct (files w input_file) as [content|] eqn:E; [|discriminate].
  intros _. exists content. simpl. repeat split.
  intros ->. now rewrite String.eqb_refl.
Qed.

Lemma convert_success_effects_witness :
  fst (convert_sqlite_to_sqlserver "sqlitedata.sql"%string
         "sqlitedata.sql"%string scenario_world) = Ok tt
  /\ exists content,
      files scenario_world "sqlitedata.sql"%string = Some content
      /\ printed (snd (convert_sqlite_to_sqlserver "sqlitedata.sql"%string
                         "sqlitedata.sql"%string scenario_world))
         = printed scenario_world ++ [MsgConverted "sqlitedata.sql"%string]
      /\ spawned (snd (convert_sqlite_to_sqlserver "sqlitedata.sql"%string
                         "sqlitedata.sql"%string scenario_world))
         = spawned scenario_world
      /\ ("sqlitedata.sql"%string = "sqlitedata.sql"%string ->
          files (snd (convert_sqlite_to_sqlserver "sqlitedata.sql"%string
                        "sqlitedata.sql"%string scenario_world))
            "sqlitedata.sql"%string = Some (convert_text content)).
Proof.
  split; [reflexivity|].
  apply (convert_success_effects "sqlitedata.sql"%string
           "sqlitedata.sql"%string scenario_world).
  reflexivity.
Defined.

(** ** Facts about the greedy repeat and the copied stretches of [re.sub] *)

Module ScanFacts.

Import TextFacts ReFacts.

Lemma run_greedy_step (lo : nat) (k : cls) (p : pattern)
      (s : text) (pos : nat) (m : marks) :
  run (Repeat true lo k :: p) s pos m
  = match s with
    | c :: s' =>
        if cls_mem k c then
          match run (Repeat true (pred lo) k :: p) s' (S pos) m with
          | Some r => Some r
          | None => if lo =? 0 then run p s pos m else None
          end
        else if lo =? 0 then run p s pos m else None
    | [] => if lo =? 0 then run p s pos m else None
    end.
Proof. destruct s; reflexivity. Qed.

(** Where no attempt succeeds, [re.sub] copies. *)
Lemma sub_copy (p : pattern) (r : template) (pre rest : text) :
  (forall x y, pre = x ++ y -> y <> [] -> match_at p (y ++ rest) = None) ->
  sub p r (pre ++ rest) = pre ++ sub p r rest.
Proof.
  unfold sub. induction pre as [|c pre IH]; intros H; [reflexivity|].
  assert (H0 : match_at p (c :: pre ++ rest) = None)
    by (apply (H [] (c :: pre) eq_refl); discriminate).
  change ((c :: pre) ++ rest) with (c :: pre ++ rest). cbn [sub_from].
  rewrite H0. simpl. f_equal. apply IH. intros x y -> Hy.
  apply (H (c :: x) y); [reflexivity|exact Hy].
Qed.

(** The lazy repeat finds no terminator before a character it cannot
    pass. *)
Lemma run_until_blocked (k : cls) (t stop : ascii) (body post : text)
      (pos : nat) (m : marks) :
  ~ In t body -> cls_mem k stop = false -> stop <> t ->
  run [Repeat false 0 k; One (Lit t)] (body ++ stop :: post) pos m = None.
Proof.
  intros Hbody Hstop Hne. revert pos.
  induction body as [|c body IH]; intros pos.
  - rewrite run_lazy_step. simpl.
    destruct (Ascii.eqb_spec t stop) as [->|_]; [congruence|].
    now rewrite Hstop.
  - rewrite run_lazy_step.
    change (0 =? 0) with true. cbv iota.
    change (run [One (Lit t)] ((c :: body) ++ stop :: post) pos m)
      with (if Ascii.eqb t c
            then run [] (body ++ stop :: post) (S pos) m else None).
    destruct (Ascii.eqb_spec t c) as [->|_].
    + exfalso. apply Hbody. now left.
    + change ((c :: body) ++ stop :: post) with (c :: body ++ stop :: post).
      cbv iota. destruct (cls_mem k c); [|reflexivity].
      apply IH. intros Hin. apply Hbody. now right.
Qed.

Lemma run_until_end (k : cls) (t : ascii) (body : text)
      (pos : nat) (m : marks) :
  ~ In t body ->
  run [Repeat false 0 k; One (Lit t)] body pos m = None.
Proof.
  intros Hbody. revert pos.
  induction body as [|c body IH]; intros pos; [reflexivity|].
  rewrite run_lazy_step.
  change (0 =? 0) with true. cbv iota.
  change (run [One (Lit t)] (c :: body) pos m)
    with (if Ascii.eqb t c then run [] body (S pos) m else None).
  destruct (Ascii.eqb_spec t c) as [->|_].
  - exfalso. apply Hbody. now left.
  - cbv iota. destruct (cls_mem k c); [|reflexivity].
    apply IH. intros Hin. apply Hbody. now right.
Qed.

(** The greedy repeat of [\w] takes the whole run of word characters. *)
Lemma run_word_run (lo : nat) (w rest : text) (pos : nat) (m : marks) :
  forallb isword w = true -> word_next rest = false ->
  run [Repeat true lo Word; Mark 1] (w ++ rest) pos m
  = if lo <=? List.length w
    then Some (pos + List.length w, set_mark m 1 (pos + List.length w))
    else None.
Proof.
  intros Hw Hrest. revert lo pos.
  induction w as [|c w IH]; intros lo pos.
  - rewrite run_greedy_step. simpl app. simpl List.length.
    rewrite Nat.add_0_r.
    assert (E : (lo <=? 0) = (lo =? 0)) by (destruct lo; reflexivity).
    rewrite E.
    destruct rest as [|d rest]; [reflexivity|].
    simpl in Hrest. simpl cls_mem. rewrite Hrest. reflexivity.
  - simpl in Hw. apply andb_true_iff in Hw as [Hc Hw].
    rewrite run_greedy_step.
    change ((c :: w) ++ rest) with (c :: w ++ rest). cbv iota.
    simpl cls_mem. rewrite Hc. rewrite (IH Hw).
    simpl List.length.
    destruct lo as [|lo].
    + simpl pred. simpl Nat.leb. cbv iota.
      now rewrite Nat.add_succ_r.
    + simpl pred. change (S lo <=? S (List.length w))
        with (lo <=? List.length w).
      destruct (lo <=? List.length w); [|reflexivity].
      now rewrite Nat.add_succ_r.
Qed.

(** Every text is a run of word characters and a rest that does not
    begin with one. *)
Lemma word_run_split (t : text) :
  exists w rest, t = w ++ rest /\ forallb isword w = true
                 /\ word_next rest = false.
Proof.
  induction t as [|c t (w & rest & -> & Hw & Hr)].
  - now exists [], [].
  - destruct (isword c) eqn:E.
    + exists (c :: w), rest. simpl. rewrite E, Hw. now repeat split.
    + exists [], (c :: w ++ rest). now repeat split.
Qed.

End ScanFacts.

(** ** Facts about rule 8 *)

Module InsertFacts.

Import TextFacts ReFacts ScanFacts.

Lemma tails_suffix (l x y : text) : l = x ++ y -> In y (tails l).
Proof.
  revert l; induction x as [|a x IH]; intros l ->.
  - destruct y; now left.
  - right. simpl. now apply IH.
Qed.

Lemma identifier_word (w : text) :
  identifier w = true -> forallb isword w = true /\ 1 <= List.length w.
Proof.
  destruct w as [|c w]; [discriminate|]. intros H. split; [exact H|].
  simpl. lia.
Qed.

Lemma insert_match_hit (w rest : text) :
  identifier w = true -> word_next rest = false ->
  match_at INSERT_INTO (INSERT_KEYWORD ++ w ++ rest)
  = Some (12 + List.length w,
          set_mark (set_mark no_marks 0 12) 1 (12 + List.length w)).
Proof.
  intros Hw Hrest. apply identifier_word in Hw as [Hw Hlen].
  unfold match_at, INSERT_INTO. fold INSERT_KEYWORD.
  rewrite run_lits, startswith_app.
  rewrite skipn_app, skipn_all, Nat.sub_diag.
  change ([] ++ skipn 0 (w ++ rest)) with (w ++ rest).
  change (run [Mark 0; Repeat true 1 Word; Mark 1] (w ++ rest)
            (0 + List.length INSERT_KEYWORD) no_marks)
    with (run [Repeat true 1 Word; Mark 1] (w ++ rest) 12
            (set_mark no_marks 0 12)).
  rewrite run_word_run by assumption.
  destruct (Nat.leb_spec 1 (List.length w)); [reflexivity|lia].
Qed.

Lemma insert_match_miss (rest : text) :
  word_next rest = false ->
  match_at INSERT_INTO (INSERT_KEYWORD ++ rest) = None.
Proof.
  intros Hrest. unfold match_at, INSERT_INTO. fold INSERT_KEYWORD.
  rewrite run_lits, startswith_app.
  rewrite skipn_app, skipn_all, Nat.sub_diag.
  change ([] ++ skipn 0 rest) with ([] ++ rest).
  change (run [Mark 0; Repeat true 1 Word; Mark 1] ([] ++ rest)
            (0 + List.length INSERT_KEYWORD) no_marks)
    with (run [Repeat true 1 Word; Mark 1] ([] ++ rest) 12
            (set_mark no_marks 0 12)).
  now rewrite run_word_run.
Qed.

(** At any place the pattern of rule 8 either finds the keyword with an
    identifier behind it or fails. *)
Lemma insert_match_cases (s : text) :
  (exists w rest, s = INSERT_KEYWORD ++ w ++ rest
                  /\ identifier w = true /\ word_next rest = false)
  \/ match_at INSERT_INTO s = None.
Proof.
  destruct (startswith INSERT_KEYWORD s) eqn:E.
  - apply startswith_split in E as [t ->].
    destruct (word_run_split t) as (w & rest & -> & Hw & Hr).
    destruct w as [|c w].
    + right. now apply insert_match_miss.
    + left. now exists (c :: w), rest.
  - right. unfold INSERT_INTO. fold INSERT_KEYWORD.
    now apply match_lits_miss.
Qed.

Lemma rule8_hit (w rest : text) :
  identifier w = true -> word_next rest = false ->
  rule8 (INSERT_KEYWORD ++ w ++ rest)
  = T "INSERT INTO [" ++ w ++ T "]" ++ rule8 rest.
Proof.
  intros Hw Hrest. unfold rule8.
  assert (Hne : INSERT_KEYWORD ++ w ++ rest <> []).
  { intros E. apply app_eq_nil in E as [E _]. vm_compute in E.
    discriminate. }
  rewrite (sub_hit _ _ _ (11 + List.length w) _ Hne
             (insert_match_hit w rest Hw Hrest)).
  cbn [expand]. unfold group. cbn [Nat.sub Nat.mul Nat.add set_mark Nat.eqb].
  rewrite (skipn_past INSERT_KEYWORD (w ++ rest) 12 eq_refl).
  rewrite Nat.sub_0_r, firstn_app, firstn_all, Nat.sub_diag. simpl firstn.
  rewrite !app_nil_r, <- !app_assoc.
  assert (Hs : skipn (12 + List.length w) (INSERT_KEYWORD ++ w ++ rest) = rest).
  { rewrite (app_assoc INSERT_KEYWORD). apply skipn_past.
    now rewrite length_app. }
  change (12 + List.length w)
    with (S (S (S (S (S (S (S (S (S (S (S (S (List.length w)))))))))))))
    in Hs.
  now rewrite Hs.
Qed.

Lemma rule8_miss_step (c : ascii) (s : text) :
  match_at INSERT_INTO (c :: s) = None -> rule8 (c :: s) = c :: rule8 s.
Proof. intros H. unfold rule8, sub. cbn [sub_from]. now rewrite H. Qed.

(** Behind the keyword, with no identifier following, the scan goes on
    and the keyword is copied. *)
Lemma rule8_pass (rest : text) :
  word_next rest = false ->
  rule8 (INSERT_KEYWORD ++ rest) = INSERT_KEYWORD ++ rule8 rest.
Proof.
  intros Hrest. unfold rule8. apply sub_copy. intros x y E Hy.
  apply tails_suffix in E. unfold INSERT_KEYWORD in E. simpl in E.
  repeat (destruct E as [<-|E];
          [first [ now apply insert_match_miss
                 | apply (match_lits_miss INSERT_KEYWORD); reflexivity ]|]).
  destruct E as [<-|[]]. congruence.
Qed.

Lemma rule8_bracketed (w t : text) :
  forallb isword w = true ->
  rule8 (T "INSERT INTO [" ++ w ++ T "]" ++ t)
  = T "INSERT INTO [" ++ w ++ T "]" ++ rule8 t.
Proof.
  intros Hw.
  change (T "INSERT INTO [") with (INSERT_KEYWORD ++ T "[").
  rewrite <- !app_assoc. rewrite rule8_pass by reflexivity.
  f_equal.
  replace (T "[" ++ w ++ T "]" ++ t) with ((T "[" ++ w ++ T "]") ++ t)
    by (now rewrite <- !app_assoc).
  replace (T "[" ++ w ++ T "]" ++ rule8 t)
    with ((T "[" ++ w ++ T "]") ++ rule8 t) by (now rewrite <- !app_assoc).
  unfold rule8. apply sub_copy. intros x y E Hy.
  apply (match_lits_miss INSERT_KEYWORD).
  destruct (startswith INSERT_KEYWORD (y ++ t)) eqn:Es; [|reflexivity].
  exfalso. destruct (exists_last Hy) as (y1 & e & ->).
  rewrite !app_assoc in E. apply app_inj_tail in E as [E <-].
  rewrite <- app_assoc in Es.
  apply startswith_foreign in Es; [|vm_compute; intuition discriminate].
  apply startswith_split in Es as [r ->].
  assert (Hin : In " "%char (T "[" ++ w)).
  { rewrite E. apply in_or_app; right. apply in_or_app; left.
    vm_compute. auto 20. }
  destruct Hin as [Hin|Hin]; [discriminate|].
  rewrite forallb_forall in Hw. specialize (Hw _ Hin). discriminate.
Qed.

Lemma rule8_firstn (s : text) : firstn 12 (rule8 s) = firstn 12 s.
Proof.
  induction s as [|c s IH]; [reflexivity|].
  destruct (insert_match_cases (c :: s)) as [(w & rest & E & Hw & Hr)|Hm].
  - rewrite E, rule8_hit by assumption.
    change (T "INSERT INTO [") with (INSERT_KEYWORD ++ T "[").
    rewrite <- app_assoc.
    now rewrite !(firstn_app 12 INSERT_KEYWORD), !firstn_all2
      by (simpl; lia).
  - rewrite rule8_miss_step by exact Hm.
    change (firstn 12 (c :: rule8 s)) with (c :: firstn 11 (rule8 s)).
    change (firstn 12 (c :: s)) with (c :: firstn 11 s).
    f_equal.
    replace (firstn 11 (rule8 s)) with (firstn 11 (firstn 12 (rule8 s)))
      by (now rewrite firstn_firstn).
    rewrite IH. now rewrite firstn_firstn.
Qed.

(** A place where rule 8 finds nothing is still one on its output. *)
Lemma rule8_miss_preserved (c : ascii) (s : text) :
  match_at INSERT_INTO (c :: s) = None ->
  match_at INSERT_INTO (c :: rule8 s) = None.
Proof.
  intros Hm.
  destruct (insert_match_cases (c :: rule8 s))
    as [(w & rest & E & Hw & Hr)|H]; [|exact H].
  exfalso. destruct w as [|d w]; [discriminate|].
  assert (E13 : c :: firstn 12 s = INSERT_KEYWORD ++ [d]).
  { rewrite <- rule8_firstn.
    change (c :: firstn 12 (rule8 s)) with (firstn 13 (c :: rule8 s)).
    rewrite E.
    replace (INSERT_KEYWORD ++ (d :: w) ++ rest)
      with ((INSERT_KEYWORD ++ [d]) ++ w ++ rest)
      by (now rewrite <- app_assoc).
    now rewrite firstn_app, firstn_all2 by (simpl; lia). }
  assert (Es : c :: s = INSERT_KEYWORD ++ d :: skipn 12 s).
  { rewrite <- (firstn_skipn 12 s) at 1.
    change (c :: firstn 12 s ++ skipn 12 s)
      with ((c :: firstn 12 s) ++ skipn 12 s).
    rewrite E13. now rewrite <- app_assoc. }
  destruct (word_run_split (skipn 12 s)) as (w2 & rest2 & E2 & Hw2 & Hr2).
  rewrite Es, E2 in Hm.
  change (d :: w2 ++ rest2) with ((d :: w2) ++ rest2) in Hm.
  rewrite insert_match_hit in Hm; [discriminate| |exact Hr2].
  simpl in Hw. apply andb_true_iff in Hw as [Hd _].
  simpl. now rewrite Hd, Hw2.
Qed.

Lemma rule8_twice (n : nat) (s : text) :
  List.length s <= n -> rule8 (rule8 s) = rule8 s.
Proof.
  revert s; induction n as [|n IH]; intros s Hn.
  - destruct s; [reflexivity|simpl in Hn; lia].
  - destruct s as [|c s]; [reflexivity|].
    destruct (insert_match_cases (c :: s)) as [(w & rest & E & Hw & Hr)|Hm].
    + rewrite E, rule8_hit by assumption.
      rewrite rule8_bracketed by (now apply identifier_word in Hw).
      rewrite IH; [reflexivity|].
      apply (f_equal (@List.length ascii)) in E.
      rewrite !length_app in E. simpl in E, Hn. lia.
    + rewrite rule8_miss_step by exact Hm.
      rewrite rule8_miss_step by (now apply rule8_miss_preserved).
      f_equal. apply IH. simpl in Hn. lia.
Qed.

End InsertFacts.

(** ** Further properties of the substitutions *)

Import ScanFacts InsertFacts.

(** X3: rule 8 puts brackets around the whole identifier behind the
    first INSERT INTO: all the word characters up to the first
    character that is not one; the text before is kept and the text
    behind is scanned in the same way. *)
Theorem insert_brackets_identifier (pre w rest : text) :
  contains INSERT_KEYWORD (pre ++ removelast INSERT_KEYWORD) = false ->
  identifier w = true ->
  word_next rest = false ->
  rule8 (pre ++ INSERT_KEYWORD ++ w ++ rest)
  = pre ++ T "INSERT INTO [" ++ w ++ T "]" ++ rule8 rest.
Proof.
  intros Hpre Hw Hrest.
  transitivity (pre ++ rule8 (INSERT_KEYWORD ++ w ++ rest)).
  - unfold rule8, INSERT_INTO. fold INSERT_KEYWORD.
    apply sub_keep_prefix; [discriminate|exact Hpre].
  - f_equal. now apply rule8_hit.
Qed.

Lemma insert_brackets_identifier_witness :
  rule8 (T "-- rows" ++ [NL] ++ INSERT_KEYWORD ++ T "Concept_2"
         ++ T " VALUES(1);")
  = (T "-- rows" ++ [NL]) ++ T "INSERT INTO [" ++ T "Concept_2" ++ T "]"
    ++ rule8 (T " VALUES(1);").
Proof.
  rewrite (app_assoc (T "-- rows")).
  apply (insert_brackets_identifier (T "-- rows" ++ [NL]) (T "Concept_2")
           (T " VALUES(1);")); reflexivity.
Defined.

(** X4: rule 8 leaves an INSERT INTO alone when no word character
    follows the blank, as with a table name in double quotes or one
    already in brackets: the keyword is copied and the scan goes on
    behind it. *)
Theorem insert_keeps_quoted_name (pre rest : text) :
  contains INSERT_KEYWORD (pre ++ removelast INSERT_KEYWORD) = false ->
  word_next rest = false ->
  rule8 (pre ++ INSERT_KEYWORD ++ rest) = pre ++ INSERT_KEYWORD ++ rule8 rest.
Proof.
  intros Hpre Hrest.
  transitivity (pre ++ rule8 (INSERT_KEYWORD ++ rest)).
  - unfold rule8, INSERT_INTO. fold INSERT_KEYWORD.
    apply sub_keep_prefix; [discriminate|exact Hpre].
  - f_equal. now apply rule8_pass.
Qed.

Lemma insert_keeps_quoted_name_witness :
  rule8 ([] ++ INSERT_KEYWORD ++ quoted_name_row)
  = [] ++ INSERT_KEYWORD ++ rule8 quoted_name_row.
Proof.
  apply (insert_keeps_quoted_name [] quoted_name_row); reflexivity.
Defined.

(** X5: rule 8 is idempotent: applied to its own output it changes
    nothing, since a bracket follows every INSERT INTO it has
    rewritten. *)
Theorem insert_bracketing_idempotent (s : text) :
  rule8 (rule8 s) = rule8 s.
Proof. apply (rule8_twice (List.length s)). lia. Qed.

(** *** The rules that delete or replace a keyword *)

Lemma sub_literal (L : text) (r : template) (pre post : text) :
  L <> [] ->
  contains L (pre ++ removelast L) = false ->
  sub (lits L) r (pre ++ L ++ post)
  = pre ++ expand r (L ++ post) no_marks ++ sub (lits L) r post.
Proof.
  intros HL Hpre. rewrite <- (app_nil_r (lits L)).
  rewrite sub_keep_prefix by assumption. f_equal.
  destruct L as [|a L]; [congruence|].
  assert (Hm : match_at (lits (a :: L) ++ []) ((a :: L) ++ post)
               = Some (S (List.length L), no_marks)).
  { unfold match_at. rewrite run_lits, startswith_app. reflexivity. }
  assert (Hne : (a :: L) ++ post <> []) by (simpl; discriminate).
  rewrite (sub_hit _ _ _ _ _ Hne Hm). f_equal. f_equal.
  apply skipn_past. reflexivity.
Qed.

Lemma keyword_statement_deleted (L : text) (pre body post : text) :
  L <> [] ->
  contains L (pre ++ removelast L) = false ->
  ~ In ";"%char body -> ~ In NL body ->
  sub (lits L ++ until_semicolon Any) [] (pre ++ L ++ body ++ ";"%char :: post)
  = pre ++ sub (lits L ++ until_semicolon Any) [] post.
Proof.
  intros HL Hpre Hsemi Hnl. unfold until_semicolon.
  rewrite sub_keep_prefix by assumption. f_equal.
  apply sub_delete_first; [exact HL|].
  apply Forall_forall. intros c Hc. split.
  - simpl. apply negb_true_iff. apply Ascii.eqb_neq. intros ->. now apply Hnl.
  - intros ->. now apply Hsemi.
Qed.

Lemma line_without_terminator_kept (L line post : text) :
  ~ In NL L -> ~ In ";"%char line -> ~ In NL line ->
  sub (lits L ++ until_semicolon Any) [] (line ++ NL :: post)
  = line ++ NL :: sub (lits L ++ until_semicolon Any) [] post.
Proof.
  intros HL Hsemi Hnl.
  replace (line ++ NL :: post) with ((line ++ [NL]) ++ post)
    by (now rewrite <- app_assoc).
  rewrite sub_copy; [now rewrite <- app_assoc|].
  intros x y E Hy. destruct (exists_last Hy) as (y1 & e & ->).
  rewrite app_assoc in E. apply app_inj_tail in E as [E <-].
  rewrite <- app_assoc. simpl app.
  unfold match_at. rewrite run_lits.
  destruct (startswith L (y1 ++ NL :: post)) eqn:Es; [|reflexivity].
  apply startswith_foreign in Es; [|exact HL].
  apply startswith_split in Es as [y2 ->].
  rewrite <- app_assoc, skipn_app, skipn_all, Nat.sub_diag.
  change ([] ++ skipn 0 (y2 ++ NL :: post)) with (y2 ++ NL :: post).
  apply run_until_blocked; [|reflexivity|discriminate].
  intros Hin. apply Hsemi. rewrite E.
  apply in_or_app; right. apply in_or_app; now right.
Qed.

Lemma last_line_without_terminator_kept (L line : text) :
  L <> [] -> ~ In ";"%char line ->
  sub (lits L ++ until_semicolon Any) [] line = line.
Proof.
  intros HL Hsemi. rewrite <- (app_nil_r line) at 1.
  rewrite sub_copy.
  - unfold sub. simpl. rewrite match_lits_miss; [apply app_nil_r|].
    destruct L; [congruence|reflexivity].
  - intros x y E Hy. rewrite app_nil_r.
    unfold match_at. rewrite run_lits.
    destruct (startswith L y) eqn:Es; [|reflexivity].
    apply startswith_split in Es as [y2 ->].
    rewrite skipn_app, skipn_all, Nat.sub_diag.
    change ([] ++ skipn 0 y2) with y2.
    apply run_until_end. intros Hin. apply Hsemi. rewrite E.
    apply in_or_app; right. apply in_or_app; now right.
Qed.

(** X6: rules 1, 6 and 7 delete the first PRAGMA, CREATE INDEX or
    CREATE UNIQUE INDEX together with what follows on the same line up
    to and including the first terminator; the text before is kept and
    the scan goes on behind the terminator. *)
Theorem statement_deleted_within_line (pre body post : text) :
  ~ In ";"%char body -> ~ In NL body ->
  (contains (T "PRAGMA") (pre ++ removelast (T "PRAGMA")) = false ->
   rule1 (pre ++ T "PRAGMA" ++ body ++ ";"%char :: post) = pre ++ rule1 post)
  /\ (contains (T "CREATE INDEX") (pre ++ removelast (T "CREATE INDEX"))
      = false ->
      rule6 (pre ++ T "CREATE INDEX" ++ body ++ ";"%char :: post)
      = pre ++ rule6 post)
  /\ (contains (T "CREATE UNIQUE INDEX")
        (pre ++ removelast (T "CREATE UNIQUE INDEX")) = false ->
      rule7 (pre ++ T "CREATE UNIQUE INDEX" ++ body ++ ";"%char :: post)
      = pre ++ rule7 post).
Proof.
  intros Hsemi Hnl. repeat split; intros Hpre;
    apply keyword_statement_deleted; (discriminate || assumption).
Qed.

Lemma statement_deleted_within_line_witness :
  rule1 (T "-- dump" ++ [NL] ++ T "PRAGMA" ++ T " foreign_keys=OFF"
         ++ ";"%char :: [NL] ++ T "INSERT INTO T VALUES(1);")
  = (T "-- dump" ++ [NL]) ++ rule1 ([NL] ++ T "INSERT INTO T VALUES(1);").
Proof.
  rewrite (app_assoc (T "-- dump")).
  apply (proj1 (statement_deleted_within_line (T "-- dump" ++ [NL])
                  (T " foreign_keys=OFF")
                  ([NL] ++ T "INSERT INTO T VALUES(1);")
                  ltac:(vm_compute; intuition discriminate)
                  ltac:(vm_compute; intuition discriminate))).
  reflexivity.
Defined.

(** X7: rules 1, 6 and 7 work within a line: a line without a
    terminator is kept as it is, keyword or not, and the deletion never
    runs over a line end (unlike rule 5, whose pattern is compiled with
    DOTALL). *)
Theorem line_without_terminator_untouched (line post : text) :
  ~ In ";"%char line -> ~ In NL line ->
  (rule1 (line ++ NL :: post) = line ++ NL :: rule1 post
   /\ rule6 (line ++ NL :: post) = line ++ NL :: rule6 post
   /\ rule7 (line ++ NL :: post) = line ++ NL :: rule7 post)
  /\ (rule1 line = line /\ rule6 line = line /\ rule7 line = line).
Proof.
  intros Hsemi Hnl. split; repeat split;
    first [ apply line_without_terminator_kept;
            first [ assumption | vm_compute; intuition discriminate ]
          | apply last_line_without_terminator_kept;
            first [ assumption | discriminate ] ].
Qed.

Lemma line_without_terminator_untouched_witness :
  rule1 (T "PRAGMA foreign_keys=OFF" ++ NL :: T "COMMIT;")
  = T "PRAGMA foreign_keys=OFF" ++ NL :: rule1 (T "COMMIT;").
Proof.
  exact (proj1 (proj1 (line_without_terminator_untouched
           (T "PRAGMA foreign_keys=OFF") (T "COMMIT;")
           ltac:(vm_compute; intuition discriminate)
           ltac:(vm_compute; intuition discriminate)))).
Defined.

(** X8: rules 2 and 3 delete the first BEGIN TRANSACTION; and the first
    COMMIT; wherever they stand, keep the text before and go on behind
    the marker. *)
Theorem transaction_markers_deleted (pre post : text) :
  (contains (T "BEGIN TRANSACTION;")
     (pre ++ removelast (T "BEGIN TRANSACTION;")) = false ->
   rule2 (pre ++ T "BEGIN TRANSACTION;" ++ post) = pre ++ rule2 post)
  /\ (contains (T "COMMIT;") (pre ++ removelast (T "COMMIT;")) = false ->
      rule3 (pre ++ T "COMMIT;" ++ post) = pre ++ rule3 post).
Proof.
  split; intros Hpre.
  - unfold rule2, BEGIN_TRANSACTION.
    now rewrite sub_literal by (discriminate || exact Hpre).
  - unfold rule3, COMMIT.
    now rewrite sub_literal by (discriminate || exact Hpre).
Qed.

Lemma transaction_markers_deleted_witness :
  rule3 (T "INSERT INTO T VALUES(1);" ++ T "COMMIT;" ++ [NL])
  = T "INSERT INTO T VALUES(1);" ++ rule3 [NL].
Proof.
  apply (proj2 (transaction_markers_deleted (T "INSERT INTO T VALUES(1);")
                  [NL])).
  reflexivity.
Defined.

(** X9: rule 4 replaces the first CREATE TABLE IF NOT EXISTS by the
    existence check, a line end and CREATE TABLE; the text it has
    written is not scanned again, the scan goes on behind the
    keyword. *)
Theorem existence_check_inserted (pre post : text) :
  contains (T "CREATE TABLE IF NOT EXISTS")
    (pre ++ removelast (T "CREATE TABLE IF NOT EXISTS")) = false ->
  rule4 (pre ++ T "CREATE TABLE IF NOT EXISTS" ++ post)
  = pre ++ existence_check ++ rule4 post.
Proof.
  intros Hpre. unfold rule4, CREATE_TABLE_IF_NOT_EXISTS.
  rewrite sub_literal by (discriminate || exact Hpre).
  cbn [expand]. now rewrite app_nil_r.
Qed.

Lemma existence_check_inserted_witness :
  rule4 ([] ++ T "CREATE TABLE IF NOT EXISTS" ++ T " T (a int);")
  = [] ++ existence_check ++ rule4 (T " T (a int);").
Proof.
  apply (existence_check_inserted [] (T " T (a int);")). reflexivity.
Defined.

(** X12: a document that holds none of the trigger strings (the
    keywords of rules 1 to 8 and the quoted literals ['0'], ['1'] and
    the empty pair) passes the substitutions unchanged; its output is
    its own lines after the line pass. *)
Theorem trigger_free_document_kept (content : text) :
  Forall (fun k => contains k content = false) triggers ->
  rewrite content = content
  /\ output_lines content = add_go (split NL content).
Proof.
  intros H. rewrite Forall_forall in H.
  assert (Hk : forall k, In k keywords -> contains k content = false).
  { intros k Hin. apply H. unfold triggers. apply in_or_app. now left. }
  assert (H17 : rules_1_7 content = content).
  { apply deletion_rules_idle. apply Forall_forall. intros l Hl.
    unfold has_pattern.
    destruct (existsb (fun k => contains k l) keywords) eqn:E; [|reflexivity].
    apply existsb_exists in E as (k & Hin & Hc).
    assert (Hinf : infix l content).
    { destruct content as [|c content]; [destruct Hl|].
      now apply (split_parts NL (c :: content) l). }
    rewrite (contains_within k l content Hinf (Hk k Hin)) in Hc.
    discriminate. }
  assert (H8 : rule8 content = content).
  { unfold rule8, INSERT_INTO. apply sub_miss. apply H.
    unfold triggers. apply in_or_app. right. simpl. auto. }
  assert (H9 : rule9 content = content).
  { unfold rule9. rewrite (replace_miss (T "'0'")).
    - apply replace_miss; [discriminate|]. apply H.
      unfold triggers. apply in_or_app. right. simpl. auto.
    - discriminate.
    - apply H. unfold triggers. apply in_or_app. right. simpl. auto. }
  assert (H10 : rule10 content = content).
  { unfold rule10. apply replace_miss; [discriminate|]. apply H.
    unfold triggers. apply in_or_app. right. simpl. auto. }
  assert (Hr : rewrite content = content).
  { unfold rewrite. now rewrite H17, H8, H9, H10. }
  split; [exact Hr|]. unfold output_lines. now rewrite Hr.
Qed.

Lemma trigger_free_document_kept_witness :
  Forall (fun k => contains k plain_document = false) triggers
  /\ output_lines plain_document
     = [T "UPDATE T SET a = 2;"; T "GO"; T "DELETE FROM T"].
Proof.
  assert (H : Forall (fun k => contains k plain_document = false) triggers).
  { vm_compute. repeat constructor. }
  split; [exact H|].
  rewrite (proj2 (trigger_free_document_kept plain_document H)).
  vm_compute. reflexivity.
Defined.

(** ** Further properties of the import runner and of the driver *)



(** X11: the driver never starts a process, so the import runner is not
    called.  Without [sqlitedata.sql] it stops with [FileNotFoundError]
    right after the opening line and every file is as before.  A run
    that returns normally has read [sqlitedata.sql], written its
    conversion to [sqlserver_import.sql] and printed, in this order,
    the opening line, the converter's confirmation and the six lines of
    manual-import instructions. *)
Theorem driver_converts_only (s : session) :
  processes (snd (main s)) = processes s
  /\ (disk s "sqlitedata.sql"%string = None ->
      fst (main s) = Raise (FileNotFoundError "sqlitedata.sql"%string)
      /\ console (snd (main s)) = console s ++ [MsgStarting]
      /\ forall q, disk (snd (main s)) q = disk s q)
  /\ (fst (main s) = Ok tt ->
      exists content,
        disk s "sqlitedata.sql"%string = Some content
        /\ disk (snd (main s)) "sqlserver_import.sql"%string
           = Some (convert_text content)
        /\ console (snd (main s))
           = console s
             ++ [MsgStarting;
                 Printed (MsgConverted "sqlserver_import.sql"%string);
                 MsgManualImportRequired; MsgConvertedTo;
                 MsgToImportManually; MsgAzureDataStudio;
                 MsgManagementStudio; MsgRunStatements]).
Proof.
  unfold main, then_, say, call, convert_sqlite_to_sqlserver, bind,
    read_file, write_file, print.
  cbn [disk console processes files printed spawned fst snd].
  destruct (disk s "sqlitedata.sql"%string) as [content|] eqn:E;
    cbn [disk console processes files printed spawned fst snd map app].
  - split; [reflexivity|]. split; [intros; discriminate|].
    intros _. exists content. split; [reflexivity|].
    split; [reflexivity|]. now rewrite <- !app_assoc.
  - split; [reflexivity|]. split; [|intros; discriminate].
    intros _. split; [reflexivity|]. split; [|reflexivity].
    now rewrite app_nil_r.
Qed.

Lemma driver_converts_only_witness :
  fst (main scenario_session) = Ok tt
  /\ exists content,
      disk scenario_session "sqlitedata.sql"%string = Some content
      /\ disk (snd (main scenario_session)) "sqlserver_import.sql"%string
         = Some (convert_text content).
Proof.
  split; [reflexivity|].
  destruct (proj2 (proj2 (driver_converts_only scenario_session)) eq_refl)
    as (content & H1 & H2 & _).
  exists content. now split.
Defined.

(** X13: rule 10 leaves no empty-quote pair in what it writes, whatever
    it is given, and is therefore idempotent. *)
Theorem null_rule_idempotent (s : text) :
  contains (T "''") (rule10 s) = false
  /\ rule10 (rule10 s) = rule10 s.
Proof.
  assert (H : contains (T "''") (rule10 s) = false)
    by (unfold rule10, replace; apply rule10_leaves_no_pair).
  split; [exact H|].
  unfold rule10 at 1. apply replace_miss; [discriminate|exact H].
Qed.
